(** * diagnose_dwarf.py: a shallow embedding and its properties

    The script [src/diagnose_dwarf.py] opens a binary, walks the DWARF
    debug-information entries of every compilation unit, reports the
    program-counter extent of every subprogram, and then exercises two
    further phases (the project's DWARF helpers and a symbolic-execution
    smoke test), each behind its own [try]/[except].

    Everything the script learns from the outside (the parsed DIE trees,
    the answers of pyelftools, of the project's helpers and of angr) is
    collected in a record [World]; a call into a library either returns or
    raises an exception of class [Exception].  The script itself becomes a
    computation in a small output-and-exception monad [M]: the list of the
    [print] statements it executed, in order, and how it ended. *)

From Stdlib Require Import ZArith String Ascii HexString.
From stdpp Require Import base option list sorting gmap strings pretty.

Local Open Scope string_scope.

(** ** Python values held by DIE attributes

    pyelftools stores integers for address, constant and offset forms and
    [bytes] for string forms; the script also allows for [str] (it tests
    [isinstance(func_name, bytes)]).  A Python [str] is represented by its
    UTF-8 encoding. *)

Inductive pyval :=
| VInt (n : Z)
| VBytes (b : string)
| VStr (s : string).

(** Truth value of a Python object: non-zero integers, non-empty [bytes]
    and [str]. *)
Definition py_truthy (v : pyval) : bool :=
  match v with
  | VInt n => negb (n =? 0)%Z
  | VBytes b => negb (String.eqb b EmptyString)
  | VStr s => negb (String.eqb s EmptyString)
  end.

(** [None] is false. *)
Definition py_truthy_opt (v : option pyval) : bool :=
  match v with
  | Some v => py_truthy v
  | None => false
  end.

(** *** [bytes.decode("utf-8")]

    Strict decoding accepts exactly the well-formed byte sequences: no
    stray continuation byte, no overlong form, no surrogate, nothing above
    U+10FFFF. *)

Definition byte_in (lo hi : N) (c : ascii) : bool :=
  ((lo <=? N_of_ascii c)%N && (N_of_ascii c <=? hi)%N)%bool.

Definition utf8_cont : ascii -> bool := byte_in 0x80 0xBF.

(** Second byte of a three-byte sequence, given the first. *)
Definition utf8_second3 (c0 c1 : ascii) : bool :=
  if byte_in 0xE0 0xE0 c0 then byte_in 0xA0 0xBF c1
  else if byte_in 0xED 0xED c0 then byte_in 0x80 0x9F c1
  else utf8_cont c1.

(** Second byte of a four-byte sequence, given the first. *)
Definition utf8_second4 (c0 c1 : ascii) : bool :=
  if byte_in 0xF0 0xF0 c0 then byte_in 0x90 0xBF c1
  else if byte_in 0xF4 0xF4 c0 then byte_in 0x80 0x8F c1
  else utf8_cont c1.

Fixpoint utf8_valid (b : string) : bool :=
  match b with
  | EmptyString => true
  | String c0 b1 =>
    if byte_in 0x00 0x7F c0 then utf8_valid b1
    else
      match b1 with
      | EmptyString => false
      | String c1 b2 =>
        if byte_in 0xC2 0xDF c0 then utf8_cont c1 && utf8_valid b2
        else
          match b2 with
          | EmptyString => false
          | String c2 b3 =>
            if byte_in 0xE0 0xEF c0
            then utf8_second3 c0 c1 && utf8_cont c2 && utf8_valid b3
            else
              match b3 with
              | EmptyString => false
              | String c3 b4 =>
                byte_in 0xF0 0xF4 c0 && utf8_second4 c0 c1
                && utf8_cont c2 && utf8_cont c3 && utf8_valid b4
              end
          end
      end
  end.

(** *** [repr] of a [bytes] object, as an f-string shows it *)

Definition hex_digit (n : N) : ascii :=
  ascii_of_N (if (n <? 10)%N then 48 + n else 87 + n).

Definition contains_byte (c : ascii) (b : string) : bool :=
  existsb (Ascii.eqb c) (list_ascii_of_string b).

Definition bytes_repr_quote (b : string) : ascii :=
  if contains_byte "'" b && negb (contains_byte "034" b) then "034"%char
  else "'"%char.

Definition bytes_repr_byte (quote c : ascii) : string :=
  if Ascii.eqb c quote || Ascii.eqb c "\"
  then String "\" (String c EmptyString)
  else if Ascii.eqb c "009" then "\t"
  else if Ascii.eqb c "010" then "\n"
  else if Ascii.eqb c "013" then "\r"
  else if byte_in 0x20 0x7E c then String c EmptyString
  else String "\" (String "x"
         (String (hex_digit (N_of_ascii c / 16))
            (String (hex_digit (N_of_ascii c mod 16)) EmptyString))).

Definition bytes_repr (b : string) : string :=
  let quote := bytes_repr_quote b in
  String "b" (String quote
    (String.concat EmptyString (map (bytes_repr_byte quote) (list_ascii_of_string b))
       ++ String quote EmptyString)).

(** [str(v)], what [f"{v}"] interpolates. *)
Definition py_str (v : pyval) : string :=
  match v with
  | VInt n => pretty n
  | VBytes b => bytes_repr b
  | VStr s => s
  end.

Definition py_str_opt (v : option pyval) : string :=
  match v with
  | Some v => py_str v
  | None => "None"
  end.

(** ** Exceptions, outcomes and the script monad *)

(** [sys.exit(n)] raises [SystemExit], which is not an [Exception] and is
    therefore not caught by [except Exception]. *)
Inductive exn :=
| Exception (msg : string)
| SystemExit (code : Z).

Inductive outcome (A : Type) :=
| Normal (a : A)
| Raise (e : exn).
Arguments Normal {A} a.
Arguments Raise {A} e.

(** The answer of a call into a library: a value, or an exception of
    class [Exception] with its message. *)
Inductive ext (A : Type) :=
| Returns (a : A)
| Raises (msg : string).
Arguments Returns {A} a.
Arguments Raises {A} msg.

(** ** What the script prints

    One constructor per [print] statement of the source (statements that
    share a format share a constructor), carrying the interpolated values;
    [PTraceback] stands for [traceback.print_exc()], which writes the trace
    of the exception being handled to the error stream. *)
Inductive line :=
| PUsage
| PAnalyzing (binary_path : string)
| PElftoolsVersion (version : string)
| PNoDwarf
| PDwarfFound
| PSubprogram (func_name : option pyval)
| PHasRanges (ranges_offset : pyval)
| PRangeListType
| PFirstEntryType (type_repr : string)
| PFirstEntryAttrs (dir_repr : string)
| PHasField (attr : string) (v : pyval)
| PRangesError (e : string)
| PLowHigh (low_pc_hex high_pc_hex : string)
| PNoPcInfo (func_name : option pyval)
| PSummaryHeader
| PCuCount (n : nat)
| PTotalSubprograms (n : nat)
| PWithPc (n : nat)
| PTygrHeader
| PTygrFound (n : nat)
| PFunction (func_name : string)
| PPcRange (low high : Z)
| PVarsFound (n : nat)
| PVar (var_name var_type : string) (func_param : bool)
| PMoreVars (n : nat)
| PVarsError (e : string)
| PTygrError (e : string)
| PSymHeader
| PAngrVersion (version : string)
| PProjectLoaded (proj_repr : string)
| PArchitecture (arch_repr : string)
| PGeneratingCfg
| PCfgGenerated
| PCfgFunctions (n : nat)
| PCfgModelType (type_repr : string)
| PMainFound (addr : Z)
| PFunctionName (name : string)
| PFunctionSize (size : Z)
| PMainNotFound (addr : Z)
| PAvailableFunctions
| PFunctionEntry (addr : Z) (name : string)
| PStrategyHeader
| PStrategyCreated
| PStrategyCfgFunctions (n : nat)
| PAttempting
| PResult (result_repr : string)
| PNumTuples (n : nat)
| PSimExecError (e : string)
| PSymError (e : string)
| PTraceback (e : string).

Definition nl : string := String "010" EmptyString.

Definition py_bool_str (b : bool) : string := if b then "True" else "False".

(** The text of each line, as the f-strings of the source build it (of a
    trace, its first line). *)
Definition render (l : line) : string :=
  match l with
  | PUsage => "Usage: python diagnose_dwarf.py <binary>"
  | PAnalyzing p => "Analyzing: " ++ p
  | PElftoolsVersion v => "pyelftools version: " ++ v
  | PNoDwarf => "ERROR: No DWARF info in binary"
  | PDwarfFound => "DWARF info found"
  | PSubprogram n => nl ++ "  Subprogram: " ++ py_str_opt n
  | PHasRanges o => "    Has DW_AT_ranges, offset=" ++ py_str o
  | PRangeListType => "    Range list type: <class 'list'>"
  | PFirstEntryType t => "    First range entry type: " ++ t
  | PFirstEntryAttrs d => "    First range entry attributes: " ++ d
  | PHasField a v => "    Has " ++ a ++ ": " ++ py_str v
  | PRangesError e => "    ERROR processing ranges: " ++ e
  | PLowHigh lo hi => "    low_pc=" ++ lo ++ ", high_pc=" ++ hi
  | PNoPcInfo n => nl ++ "  Subprogram: " ++ py_str_opt n ++ " - NO PC INFO"
  | PSummaryHeader => nl ++ "=== Summary ==="
  | PCuCount n => "Compilation Units: " ++ pretty n
  | PTotalSubprograms n => "Total subprograms: " ++ pretty n
  | PWithPc n => "Subprograms with PC range: " ++ pretty n
  | PTygrHeader => nl ++ "=== Testing TYGR's DWARF parsing ==="
  | PTygrFound n => "TYGR found " ++ pretty n ++ " subprograms"
  | PFunction n => nl ++ "  Function: " ++ n
  | PPcRange lo hi =>
      "    PC range: " ++ HexString.of_Z lo ++ " - " ++ HexString.of_Z hi
  | PVarsFound n => "    Variables found: " ++ pretty n
  | PVar n t p =>
      "      - " ++ n ++ ": " ++ t ++ " (param=" ++ py_bool_str p ++ ")"
  | PMoreVars n => "      ... and " ++ pretty n ++ " more"
  | PVarsError e => "    ERROR getting variables: " ++ e
  | PTygrError e => "ERROR in TYGR parsing: " ++ e
  | PSymHeader => nl ++ "=== Testing Symbolic Execution ==="
  | PAngrVersion v => "angr version: " ++ v
  | PProjectLoaded p => "Project loaded: " ++ p
  | PArchitecture a => "Architecture: " ++ a
  | PGeneratingCfg => nl ++ "Generating CFG..."
  | PCfgGenerated => "CFG generated"
  | PCfgFunctions n => "CFG functions: " ++ pretty n
  | PCfgModelType t => "CFG model type: " ++ t
  | PMainFound a => nl ++ "Main function found in CFG at " ++ HexString.of_Z a
  | PFunctionName n => "  Function name: " ++ n
  | PFunctionSize s => "  Function size: " ++ pretty s
  | PMainNotFound a =>
      nl ++ "WARNING: Main function NOT found at " ++ HexString.of_Z a
  | PAvailableFunctions => "Available functions:"
  | PFunctionEntry a n => "  " ++ HexString.of_Z a ++ ": " ++ n
  | PStrategyHeader => nl ++ "=== Testing LessSimpleDominatorStrategy ==="
  | PStrategyCreated => "Strategy created"
  | PStrategyCfgFunctions n => "Strategy CFG functions: " ++ pretty n
  | PAttempting => nl ++ "Attempting symbolic execution of main..."
  | PResult r => "Symbolic execution result: " ++ r
  | PNumTuples n => "Number of state tuples: " ++ pretty n
  | PSimExecError e => "ERROR in sim_exec_function: " ++ e
  | PSymError e => "ERROR in symbolic execution test: " ++ e
  | PTraceback e => "Traceback (most recent call last):"
  end.

(** A run of (a part of) the script: the lines printed so far and how it
    ended. *)
Record M (A : Type) := Run { output : list line; result : outcome A }.
Arguments Run {A} output result.
Arguments output {A} m.
Arguments result {A} m.

#[global] Instance M_ret : MRet M := λ A a, Run [] (Normal a).

#[global] Instance M_bind : MBind M := λ A B k m,
  match result m with
  | Normal a => let r := k a in Run (output m ++ output r) (result r)
  | Raise e => Run (output m) (Raise e)
  end.

Definition emit (l : line) : M unit := Run [l] (Normal tt).

Definition raise {A} (e : exn) : M A := Run [] (Raise e).

(** [sys.exit(code)] *)
Definition sys_exit {A} (code : Z) : M A := raise (SystemExit code).

(** A library call inside the script. *)
Definition call {A} (r : ext A) : M A :=
  match r with
  | Returns a => mret a
  | Raises msg => raise (Exception msg)
  end.

(** [try: body  except Exception as e: handler(e)].  What the body printed
    before raising stays printed; [SystemExit] passes through. *)
Definition try_except {A} (body : M A) (handler : string → M A) : M A :=
  match result body with
  | Raise (Exception msg) =>
      let r := handler msg in Run (output body ++ output r) (result r)
  | _ => body
  end.

(** [for x in xs: s = body(s, x)], the loop state threaded through. *)
Fixpoint for_each {A S} (body : S → A → M S) (xs : list A) (s : S) : M S :=
  match xs with
  | [] => mret s
  | x :: xs' => s' ← body s x; for_each body xs' s'
  end.

(** The status the interpreter exits with. *)
Definition exit_status {A} (m : M A) : Z :=
  match result m with
  | Normal _ => 0
  | Raise (SystemExit code) => code
  | Raise (Exception _) => 1
  end.

(** ** The outside world *)

(** *** pyelftools *)

Record AttributeValue := { form : string; value : pyval }.

(** A debug-information entry: [die.tag], [die.attributes] (a dict keyed by
    attribute name) and [die.iter_children()]. *)
#[local] Unset Elimination Schemes.
Inductive DIE :=
  mkDIE { tag : string;
          attributes : gmap string AttributeValue;
          children : list DIE }.
#[local] Set Elimination Schemes.

Record CU := { get_top_DIE : DIE }.

(** An entry of a range list: what [type(entry)] and [dir(entry)] print,
    and the attributes [hasattr] finds, with their values. *)
Record RangeEntry :=
  { entry_type : string;
    entry_dir : string;
    fields : gmap string pyval }.

(** [dwarf_info.iter_CUs()], and
    [dwarf_info.range_lists().get_range_list_at_offset(offset)] as one
    call: it raises when the binary has no range-list section or the
    offset cannot be resolved. *)
Record DWARFInfo :=
  { iter_CUs : list CU;
    get_range_list_at_offset : pyval → ext (list RangeEntry) }.

Record ELFFile :=
  { has_dwarf_info : bool;
    get_dwarf_info : DWARFInfo }.

(** *** The project's DWARF helpers ([src.analysis.dwarf]) *)

(** The tuple a subprogram is returned as (its DIE left out); the helpers
    may leave the PC range [None]. *)
Record Subprogram :=
  { directory : string;
    file_name : string;
    func_name : string;
    low_high_pc : option (Z * Z);
    cu_offset : Z }.

(** The tuple a variable is returned as (its locations left out). *)
Record VarTuple :=
  { var_name : string;
    var_type : string;
    func_param : bool }.

(** *** angr and the project's strategy ([src.analysis.angr.sim_exec]) *)

Record AngrFunction := { name : string; size : Z }.

(** [cfg.functions] as the list of its items, in iteration order. *)
Record CFG :=
  { functions : list (Z * AngrFunction);
    model_type : string }.

Record Project :=
  { proj_repr : string;
    arch : string;
    CFGFast : ext CFG }.

Record ExecResult := { result_repr : string; tups : list string }.

Record Strategy :=
  { strategy_cfg : CFG;
    sim_exec_function : Z → ext ExecResult }.

(** *** Everything a run depends on *)

Record World :=
  { argv : list string;
    elftools_version : string;
    (** [open(binary_path, "rb")] followed by [ELFFile(f)] *)
    open_elf : string → ext ELFFile;
    (** [elftools.dwarf.descriptions.describe_form_class], a table lookup
        that raises [KeyError] on a form it does not list *)
    describe_form_class : string → ext string;
    (** [from src.analysis.dwarf import ...] and the four helpers *)
    import_dwarf_helpers : ext unit;
    helper_get_dwarf_info : string → ext unit;
    dwarf_info_to_context : ext unit;
    dwarf_info_to_subprograms : ext (list Subprogram);
    dwarf_subprogram_to_vars : Subprogram → ext (list VarTuple);
    (** [import angr] (giving [angr.__version__]) and [angr.Project] *)
    import_angr : ext string;
    angr_Project : string → ext Project;
    (** [from src.analysis.angr.sim_exec import ...] and the constructor *)
    import_sim_exec : ext unit;
    LessSimpleDominatorStrategy : Project → ext Strategy }.

(** ** The script *)

(** *** Lines 41-44: the DIE tree walker

    [iter_die] is a generator; the list is the sequence of its yields. *)
Fixpoint iter_die (die : DIE) : list DIE :=
  match die with
  | mkDIE _ _ cs => die :: flat_map iter_die cs
  end.

(** *** Python operators the PC-range resolver uses *)

(** [a + b] *)
Definition py_add (a b : pyval) : M pyval :=
  match a, b with
  | VInt x, VInt y => mret (VInt (x + y))
  | VBytes x, VBytes y => mret (VBytes (x ++ y))
  | VStr x, VStr y => mret (VStr (x ++ y))
  | _, _ => raise (Exception "TypeError: unsupported operand type(s) for +")
  end.

(** [hex(v)] *)
Definition py_hex (v : pyval) : M string :=
  match v with
  | VInt n => mret (HexString.of_Z n)
  | _ => raise (Exception "TypeError: object cannot be interpreted as an integer")
  end.

(** [b.decode("utf-8")] *)
Definition bytes_decode_utf8 (b : string) : M string :=
  if utf8_valid b then mret b
  else raise (Exception "UnicodeDecodeError: 'utf-8' codec can't decode bytes").

(** *** Lines 49-53: the name of a subprogram

    An attribute, when present, is a non-empty named tuple and so true;
    the result is [None], or the attribute's value with [bytes] decoded. *)
Definition get_func_name (die : DIE) : M (option pyval) :=
  match attributes die !! "DW_AT_name" with
  | Some func_name =>
      match value func_name with
      | VBytes b => s ← bytes_decode_utf8 b; mret (Some (VStr s))
      | v => mret (Some v)
      end
  | None => mret None
  end.

(** The three counters of lines 32-34. *)
Record counters :=
  { cu_count : nat;
    subprog_count : nat;
    subprog_with_pc : nat }.

Definition incr_cu (c : counters) : counters :=
  {| cu_count := S (cu_count c);
     subprog_count := subprog_count c;
     subprog_with_pc := subprog_with_pc c |}.

Definition incr_subprog (c : counters) : counters :=
  {| cu_count := cu_count c;
     subprog_count := S (subprog_count c);
     subprog_with_pc := subprog_with_pc c |}.

Definition incr_with_pc (c : counters) : counters :=
  {| cu_count := cu_count c;
     subprog_count := subprog_count c;
     subprog_with_pc := S (subprog_with_pc c) |}.

(** *** Lines 59-89: method 1, [DW_AT_ranges] *)

(** [if hasattr(first_range, attr): print(...)] *)
Definition print_if_has (first_range : RangeEntry) (attr : string) : M unit :=
  match fields first_range !! attr with
  | Some v => emit (PHasField attr v)
  | None => mret tt
  end.

(** Lines 70-84: the description of the first entry. *)
Definition describe_first_range (first_range : RangeEntry) : M unit :=
  emit (PFirstEntryType (entry_type first_range));;
  emit (PFirstEntryAttrs (entry_dir first_range));;
  print_if_has first_range "begin_offset";;
  print_if_has first_range "end_offset";;
  print_if_has first_range "begin_address";;
  print_if_has first_range "end_address";;
  print_if_has first_range "start_offset".

Definition ranges_branch (dwarf_info : DWARFInfo) (func_name : option pyval)
    (ranges_attr : AttributeValue) (c : counters) : M counters :=
  try_except
    (let ranges_offset := value ranges_attr in
     ranges ← call (get_range_list_at_offset dwarf_info ranges_offset);
     emit (PSubprogram func_name);;
     emit (PHasRanges ranges_offset);;
     emit PRangeListType;;
     match ranges with
     | first_range :: _ =>
         describe_first_range first_range;;
         mret (incr_with_pc c)
     | [] => mret c
     end)
    (λ e,
     emit (PSubprogram func_name);;
     emit (PRangesError e);;
     mret c).

(** *** Lines 92-109: method 2, [DW_AT_low_pc] / [DW_AT_high_pc] *)

(** Lines 97-104: the high bound, from the form class of the attribute. *)
Definition resolve_high_pc (w : World) (low_pc : pyval)
    (highpc_attr : AttributeValue) : M (option pyval) :=
  highpc_class ← call (describe_form_class w (form highpc_attr));
  if String.eqb highpc_class "address" then
    mret (Some (value highpc_attr))
  else if String.eqb highpc_class "constant" then
    high_pc ← py_add low_pc (value highpc_attr);
    mret (Some high_pc)
  else
    mret None.

(** Lines 106-109: [if high_pc:] and the report. *)
Definition report_low_high (func_name : option pyval) (low_pc : pyval)
    (high_pc : option pyval) (c : counters) : M counters :=
  match high_pc with
  | Some hp =>
      if py_truthy hp then
        emit (PSubprogram func_name);;
        lo ← py_hex low_pc;
        hi ← py_hex hp;
        emit (PLowHigh lo hi);;
        mret (incr_with_pc c)
      else mret c
  | None => mret c
  end.

Definition low_high_branch (w : World) (die : DIE) (func_name : option pyval)
    (low_attr : AttributeValue) (c : counters) : M counters :=
  let low_pc := value low_attr in
  match attributes die !! "DW_AT_high_pc" with
  | Some highpc_attr =>
      high_pc ← resolve_high_pc w low_pc highpc_attr;
      report_low_high func_name low_pc high_pc c
  | None => mret c
  end.

(** *** Lines 47-111: one DIE of the walk *)
Definition process_die (w : World) (dwarf_info : DWARFInfo)
    (c : counters) (die : DIE) : M counters :=
  if String.eqb (tag die) "DW_TAG_subprogram" then
    let c := incr_subprog c in
    func_name ← get_func_name die;
    match attributes die !! "DW_AT_ranges" with
    | Some ranges_attr => ranges_branch dwarf_info func_name ranges_attr c
    | None =>
        match attributes die !! "DW_AT_low_pc" with
        | Some low_attr => low_high_branch w die func_name low_attr c
        | None => emit (PNoPcInfo func_name);; mret c
        end
    end
  else mret c.

(** *** Lines 36-46: one compilation unit *)
Definition process_cu (w : World) (dwarf_info : DWARFInfo)
    (c : counters) (cu : CU) : M counters :=
  let c := incr_cu c in
  let cu_die := get_top_DIE cu in
  for_each (process_die w dwarf_info) (iter_die cu_die) c.

Definition counters0 : counters :=
  {| cu_count := 0; subprog_count := 0; subprog_with_pc := 0 |}.

(** *** Lines 32-116: the DWARF summary *)
Definition dwarf_summary (w : World) (dwarf_info : DWARFInfo) : M counters :=
  c ← for_each (process_cu w dwarf_info) (iter_CUs dwarf_info) counters0;
  emit PSummaryHeader;;
  emit (PCuCount (cu_count c));;
  emit (PTotalSubprograms (subprog_count c));;
  emit (PWithPc (subprog_with_pc c));;
  mret c.

(** A loop whose body keeps no state. *)
Definition for_ {A} (body : A → M unit) (xs : list A) : M unit :=
  for_each (λ _ x, body x) xs tt.

(** *** Lines 119-151: the project's DWARF helpers *)

(** [low_high_pc[0]] and [low_high_pc[1]]; subscripting [None] is a
    [TypeError]. *)
Definition subscript_pc (low_high_pc : option (Z * Z)) : M (Z * Z) :=
  match low_high_pc with
  | Some p => mret p
  | None => raise (Exception "'NoneType' object is not subscriptable")
  end.

(** Lines 139-140 *)
Definition print_var (var : VarTuple) : M unit :=
  emit (PVar (var_name var) (var_type var) (func_param var)).

(** Lines 135-146 *)
Definition report_vars (w : World) (subprog : Subprogram) : M unit :=
  try_except
    (vars_list ← call (dwarf_subprogram_to_vars w subprog);
     emit (PVarsFound (length vars_list));;
     for_ print_var (take 5 vars_list);;
     if bool_decide (5 < length vars_list)
     then emit (PMoreVars (length vars_list - 5))
     else mret tt)
    (λ e, emit (PVarsError e);; emit (PTraceback e)).

(** Lines 130-146 *)
Definition report_subprogram (w : World) (subprog : Subprogram) : M unit :=
  emit (PFunction (func_name subprog));;
  pc ← subscript_pc (low_high_pc subprog);
  emit (PPcRange pc.1 pc.2);;
  report_vars w subprog.

(** Lines 121-146 *)
Definition tygr_body (w : World) (binary_path : string) : M unit :=
  call (import_dwarf_helpers w);;
  call (helper_get_dwarf_info w binary_path);;
  call (dwarf_info_to_context w);;
  subprog_list ← call (dwarf_info_to_subprograms w);
  emit (PTygrFound (length subprog_list));;
  for_ (report_subprogram w) subprog_list.

Definition tygr_phase (w : World) (binary_path : string) : M unit :=
  emit PTygrHeader;;
  try_except (tygr_body w binary_path)
    (λ e, emit (PTygrError e);; emit (PTraceback e)).

(** *** Lines 154-209: the symbolic-execution test *)

Definition main_addr : Z := 0x10908.

(** [cfg.functions.get(addr)]: the function at that address, or [None]. *)
Fixpoint functions_get (items : list (Z * AngrFunction)) (addr : Z)
    : option AngrFunction :=
  match items with
  | [] => None
  | (a, fn) :: items' =>
      if (a =? addr)%Z then Some fn else functions_get items' addr
  end.

(** Line 185 *)
Definition print_function_entry (item : Z * AngrFunction) : M unit :=
  emit (PFunctionEntry item.1 (name item.2)).

(** Lines 175-185: a function object, when found, is true. *)
Definition report_main (cfg : CFG) : M unit :=
  match functions_get (functions cfg) main_addr with
  | Some func =>
      emit (PMainFound main_addr);;
      emit (PFunctionName (name func));;
      emit (PFunctionSize (size func))
  | None =>
      emit (PMainNotFound main_addr);;
      emit PAvailableFunctions;;
      for_ print_function_entry (take 10 (functions cfg))
  end.

(** Lines 197-204 *)
Definition try_sim_exec (strategy : Strategy) : M unit :=
  try_except
    (res ← call (sim_exec_function strategy main_addr);
     emit (PResult (result_repr res));;
     emit (PNumTuples (length (tups res))))
    (λ e, emit (PSimExecError e);; emit (PTraceback e)).

(** Lines 156-204 *)
Definition symexec_body (w : World) (binary_path : string) : M unit :=
  version ← call (import_angr w);
  emit (PAngrVersion version);;
  proj ← call (angr_Project w binary_path);
  emit (PProjectLoaded (proj_repr proj));;
  emit (PArchitecture (arch proj));;
  emit PGeneratingCfg;;
  cfg ← call (CFGFast proj);
  emit PCfgGenerated;;
  emit (PCfgFunctions (length (functions cfg)));;
  emit (PCfgModelType (model_type cfg));;
  report_main cfg;;
  emit PStrategyHeader;;
  call (import_sim_exec w);;
  strategy ← call (LessSimpleDominatorStrategy w proj);
  emit PStrategyCreated;;
  emit (PStrategyCfgFunctions (length (functions (strategy_cfg strategy))));;
  emit PAttempting;;
  try_sim_exec strategy.

Definition symexec_phase (w : World) (binary_path : string) : M unit :=
  emit PSymHeader;;
  try_except (symexec_body w binary_path)
    (λ e, emit (PSymError e);; emit (PTraceback e)).

(** *** Lines 9-209: [main] *)
Definition main (w : World) : M unit :=
  (if bool_decide (length (argv w) < 2)
   then emit PUsage;; sys_exit 1
   else mret tt);;
  let binary_path := default EmptyString (argv w !! 1) in
  emit (PAnalyzing binary_path);;
  emit (PElftoolsVersion (elftools_version w));;
  elf ← call (open_elf w binary_path);
  (if negb (has_dwarf_info elf)
   then emit PNoDwarf;; sys_exit 1
   else mret tt);;
  let dwarf_info := get_dwarf_info elf in
  emit PDwarfFound;;
  dwarf_summary w dwarf_info;;
  tygr_phase w binary_path;;
  symexec_phase w binary_path.

(** ** A sample binary

    Two compilation units.  The first holds [main] (low/high PC, the high
    bound an offset), [split] (a range list of three entries), [puts] (no
    PC attributes), [stub] (a zero high bound) and a lexical block nested
    in [main] holding an inlined subprogram with a low PC only; the second
    holds [cold], whose range list is empty. *)
Module Sample.

Definition attr (f : string) (v : pyval) : AttributeValue :=
  {| form := f; value := v |}.

Definition leaf (t : string) (attrs : list (string * AttributeValue)) : DIE :=
  mkDIE t (list_to_map attrs) [].

Definition die_inlined : DIE :=
  leaf "DW_TAG_subprogram"
    [("DW_AT_name", attr "DW_FORM_strp" (VBytes "helper"));
     ("DW_AT_low_pc", attr "DW_FORM_addr" (VInt 0x10920))].

Definition die_block : DIE :=
  mkDIE "DW_TAG_lexical_block" ∅ [die_inlined].

Definition die_main : DIE :=
  mkDIE "DW_TAG_subprogram"
    (list_to_map
       [("DW_AT_name", attr "DW_FORM_strp" (VBytes "main"));
        ("DW_AT_low_pc", attr "DW_FORM_addr" (VInt 0x10908));
        ("DW_AT_high_pc", attr "DW_FORM_data4" (VInt 0x40))])
    [leaf "DW_TAG_variable" []; die_block].

Definition die_split : DIE :=
  leaf "DW_TAG_subprogram"
    [("DW_AT_name", attr "DW_FORM_strp" (VBytes "split"));
     ("DW_AT_ranges", attr "DW_FORM_sec_offset" (VInt 16))].

Definition die_puts : DIE :=
  leaf "DW_TAG_subprogram"
    [("DW_AT_name", attr "DW_FORM_string" (VStr "puts"))].

Definition die_stub : DIE :=
  leaf "DW_TAG_subprogram"
    [("DW_AT_name", attr "DW_FORM_strp" (VBytes "stub"));
     ("DW_AT_low_pc", attr "DW_FORM_addr" (VInt 0));
     ("DW_AT_high_pc", attr "DW_FORM_addr" (VInt 0))].

Definition die_cold : DIE :=
  leaf "DW_TAG_subprogram"
    [("DW_AT_name", attr "DW_FORM_strp" (VBytes "cold"));
     ("DW_AT_ranges", attr "DW_FORM_sec_offset" (VInt 64))].

Definition cu0 : CU :=
  {| get_top_DIE :=
       mkDIE "DW_TAG_compile_unit" ∅
         [die_main; die_split; die_puts; die_stub] |}.

Definition cu1 : CU :=
  {| get_top_DIE := mkDIE "DW_TAG_compile_unit" ∅ [die_cold] |}.

Definition range_entry (b e : Z) : RangeEntry :=
  {| entry_type := "<class 'elftools.dwarf.ranges.RangeEntry'>";
     entry_dir := "['begin_offset', 'end_offset', 'entry_length', 'entry_offset']";
     fields := list_to_map
                 [("begin_offset", VInt b); ("end_offset", VInt e)] |}.

Definition split_ranges : list RangeEntry :=
  [range_entry 0x200 0x240; range_entry 0x300 0x310; range_entry 0x400 0x480].

Definition range_lists (offset : pyval) : ext (list RangeEntry) :=
  match offset with
  | VInt 16 => Returns split_ranges
  | VInt 64 => Returns []
  | _ => Raises "'NoneType' object has no attribute 'get_range_list_at_offset'"
  end.

Definition dwarf_info : DWARFInfo :=
  {| iter_CUs := [cu0; cu1]; get_range_list_at_offset := range_lists |}.

Definition elf : ELFFile :=
  {| has_dwarf_info := true; get_dwarf_info := dwarf_info |}.

(** A binary without debug sections. *)
Definition stripped : ELFFile :=
  {| has_dwarf_info := false;
     get_dwarf_info := {| iter_CUs := []; get_range_list_at_offset := range_lists |} |}.

(** A binary whose only subprogram has a name that is not UTF-8 (the
    single byte 0xff). *)
Definition die_garbled : DIE :=
  leaf "DW_TAG_subprogram"
    [("DW_AT_name", attr "DW_FORM_string" (VBytes (String "255" EmptyString)))].

Definition garbled : ELFFile :=
  {| has_dwarf_info := true;
     get_dwarf_info :=
       {| iter_CUs :=
            [{| get_top_DIE := mkDIE "DW_TAG_compile_unit" ∅ [die_garbled] |}];
          get_range_list_at_offset := range_lists |} |}.

(** The form classes of pyelftools for the forms used here. *)
Definition form_class (f : string) : ext string :=
  if String.eqb f "DW_FORM_addr" then Returns "address"
  else if String.eqb f "DW_FORM_data4" then Returns "constant"
  else if String.eqb f "DW_FORM_data8" then Returns "constant"
  else if String.eqb f "DW_FORM_strp" then Returns "string"
  else if String.eqb f "DW_FORM_string" then Returns "string"
  else if String.eqb f "DW_FORM_sec_offset" then Returns "sec_offset"
  else Raises ("'" ++ f ++ "'").

Definition fn_start : AngrFunction := {| name := "_start"; size := 44 |}.
Definition fn_sub (a : Z) : AngrFunction :=
  {| name := "sub_" ++ String.substring 2 8 (HexString.of_Z a); size := 8 |}.

(** Twelve functions, none at [main_addr]. *)
Definition cfg_without_main : CFG :=
  {| functions :=
       (0x10400%Z, fn_start)
         :: map (λ i : Z, (0x10500 + 16 * i, fn_sub (0x10500 + 16 * i))%Z)
              [0; 1; 2; 3; 4; 5; 6; 7; 8; 9; 10]%Z;
     model_type := "<class 'angr.knowledge_plugins.cfg.cfg_model.CFGModel'>" |}.

Definition project : Project :=
  {| proj_repr := "<Project a.out>";
     arch := "<Arch ARMEL (LE)>";
     CFGFast := Returns cfg_without_main |}.

Definition strategy : Strategy :=
  {| strategy_cfg := cfg_without_main;
     sim_exec_function := λ _, Raises "'NoneType' object has no attribute 'addr'" |}.

Definition subprog_main : Subprogram :=
  {| directory := "/src"; file_name := "a.c"; func_name := "main";
     low_high_pc := Some (0x10908, 0x10948)%Z; cu_offset := 0 |}.

(** The helpers cannot be imported: the whole cross-check fails. *)
Definition world_of (args : list string) (file : ext ELFFile) : World :=
  {| argv := args;
     elftools_version := "0.29";
     open_elf := λ _, file;
     describe_form_class := form_class;
     import_dwarf_helpers := Raises "No module named 'src'";
     helper_get_dwarf_info := λ _, Returns tt;
     dwarf_info_to_context := Returns tt;
     dwarf_info_to_subprograms := Returns [subprog_main];
     dwarf_subprogram_to_vars := λ _, Returns [];
     import_angr := Returns "9.2.6";
     angr_Project := λ _, Returns project;
     import_sim_exec := Returns tt;
     LessSimpleDominatorStrategy := λ _, Returns strategy |}.

Definition world : World := world_of ["diagnose_dwarf.py"; "a.out"] (Returns elf).

End Sample.

(** * The vocabulary of the properties *)

Local Open Scope list_scope.

(** ** Subprograms and their PC attributes *)

(** [die.tag == "DW_TAG_subprogram"] *)
Definition is_subprogram (die : DIE) : bool :=
  String.eqb (tag die) "DW_TAG_subprogram".

(** The same DIE with its [DW_AT_high_pc] attribute removed. *)
Definition without_high_pc (die : DIE) : DIE :=
  mkDIE (tag die) (delete "DW_AT_high_pc" (attributes die)) (children die).

(** A subprogram the script passes over: a low PC without a usable high
    bound, or a range list that resolves to no entry. *)
Inductive no_usable_pc (w : World) (dwarf_info : DWARFInfo) (die : DIE) : Prop :=
| high_pc_absent low_attr :
    attributes die !! "DW_AT_ranges" = None →
    attributes die !! "DW_AT_low_pc" = Some low_attr →
    attributes die !! "DW_AT_high_pc" = None →
    no_usable_pc w dwarf_info die
| high_pc_falsy low_attr highpc_attr high_pc :
    attributes die !! "DW_AT_ranges" = None →
    attributes die !! "DW_AT_low_pc" = Some low_attr →
    attributes die !! "DW_AT_high_pc" = Some highpc_attr →
    resolve_high_pc w (value low_attr) highpc_attr = mret high_pc →
    py_truthy_opt high_pc = false →
    no_usable_pc w dwarf_info die
| ranges_empty ranges_attr :
    attributes die !! "DW_AT_ranges" = Some ranges_attr →
    get_range_list_at_offset dwarf_info (value ranges_attr) = Returns [] →
    no_usable_pc w dwarf_info die.

(** The lines a subprogram with an empty range list still prints. *)
Definition ranges_header (func_name : option pyval) (die : DIE) : list line :=
  match attributes die !! "DW_AT_ranges" with
  | Some ranges_attr =>
      [PSubprogram func_name; PHasRanges (value ranges_attr); PRangeListType]
  | None => []
  end.

(** The description of a range entry opens with its "First range entry
    type" line; the entries a run describes are counted by these. *)
Definition is_entry_line (l : line) : bool :=
  match l with
  | PFirstEntryType _ => true
  | _ => false
  end.

Definition entries_printed (out : list line) : nat :=
  length (List.filter is_entry_line out).

(** ** Counting over the DIE trees *)

(** The subprogram DIEs of a tree, counted over the tree itself. *)
Fixpoint count_subprograms (die : DIE) : nat :=
  match die with
  | mkDIE t _ cs =>
      (if String.eqb t "DW_TAG_subprogram" then 1 else 0)
      + sum_list_with count_subprograms cs
  end.

(** The subprogram DIEs of all the DIE trees of a binary. *)
Definition total_subprograms (dwarf_info : DWARFInfo) : nat :=
  sum_list_with (λ cu, count_subprograms (get_top_DIE cu)) (iter_CUs dwarf_info).

(** The lines the walk prints for a DIE. *)
Definition is_die_line (l : line) : bool :=
  match l with
  | PSubprogram _ | PHasRanges _ | PRangeListType | PFirstEntryType _
  | PFirstEntryAttrs _ | PHasField _ _ | PRangesError _ | PLowHigh _ _
  | PNoPcInfo _ => true
  | _ => false
  end.

(** A DIE the walk cannot fail on: its name decodes and, in the low/high-PC
    branch, both attribute values are integers and the form of
    [DW_AT_high_pc] has a class. *)
Definition well_formed_die (w : World) (die : DIE) : Prop :=
  (∃ func_name, get_func_name die = mret func_name)
  ∧ ∀ low_attr highpc_attr,
      attributes die !! "DW_AT_ranges" = None →
      attributes die !! "DW_AT_low_pc" = Some low_attr →
      attributes die !! "DW_AT_high_pc" = Some highpc_attr →
      ∃ low offset cls,
        value low_attr = VInt low
        ∧ value highpc_attr = VInt offset
        ∧ describe_form_class w (form highpc_attr) = Returns cls.

(** All the DIEs the walk visits, in order. *)
Definition walked (dwarf_info : DWARFInfo) : list DIE :=
  flat_map (λ cu, iter_die (get_top_DIE cu)) (iter_CUs dwarf_info).

(** ** Exceptions and guards *)

(** A run that does not end in [SystemExit]: nothing below the start of
    [main] calls [sys.exit], and library calls raise [Exception]s. *)
Definition no_exit {A} (m : M A) : Prop :=
  ∀ code, result m ≠ Raise (SystemExit code).

(** What a guard makes of its body: the body's lines stay; an [Exception]
    adds the handler's lines and the guard ends normally. *)
Definition guarded (header : line) (body : M unit) (error : string → line)
    (phase : M unit) : Prop :=
  match result body with
  | Normal _ => phase = Run (header :: output body) (Normal tt)
  | Raise (Exception e) =>
      phase = Run (header :: output body ++ [error e; PTraceback e]) (Normal tt)
  | Raise (SystemExit _) => False
  end.

(** ** Positions in a DIE tree and their pre-order *)

(** A position in a DIE tree: the indices of the children taken on the way
    down from the root.  Two DIEs of a tree may be equal as values; their
    positions tell them apart. *)
Fixpoint die_at (root : DIE) (p : list nat) : option DIE :=
  match p with
  | [] => Some root
  | i :: p' =>
      match children root !! i with
      | Some child => die_at child p'
      | None => None
      end
  end.

Section children_walk.

Context (walk : DIE → list (list nat)).

(** The positions below a node, child after child, the first child being
    number [i]. *)
Fixpoint children_positions (i : nat) (cs : list DIE) : list (list nat) :=
  match cs with
  | [] => []
  | child :: cs' => (cons i <$> walk child) ++ children_positions (S i) cs'
  end.

End children_walk.

(** The positions at which [iter_die] yields, in the order of its yields. *)
Fixpoint positions (die : DIE) : list (list nat) :=
  match die with
  | mkDIE _ _ cs => [] :: children_positions positions 0 cs
  end.

(** Depth-first pre-order on positions: a node comes before every DIE
    below it, and the whole subtree of a child comes before the subtree of
    any later child of the same node. *)
Inductive before : list nat → list nat → Prop :=
| before_below p s : s ≠ [] → before p (p ++ s)
| before_sibling r i j p q : i < j → before (r ++ i :: p) (r ++ j :: q).

(** The same order, computed from the front. *)
Fixpoint lex_lt (p q : list nat) : Prop :=
  match p, q with
  | [], [] => False
  | [], _ :: _ => True
  | _ :: _, [] => False
  | i :: p', j :: q' => i < j ∨ (i = j ∧ lex_lt p' q')
  end.

(** ** Whole runs *)

(** A run that ends normally. *)
Definition completes {A} (m : M A) : Prop := ∃ a, result m = Normal a.

(** The lines that report a PC extent: the low/high line of method 2 and
    the line that opens the description of the first range of method 1. *)
Definition is_pc_line (l : line) : bool :=
  match l with
  | PLowHigh _ _ | PFirstEntryType _ => true
  | _ => false
  end.

Definition pc_lines (out : list line) : nat :=
  length (List.filter is_pc_line out).

Definition is_no_pc_info_line (l : line) : bool :=
  match l with
  | PNoPcInfo _ => true
  | _ => false
  end.

Definition no_pc_info_lines (out : list line) : nat :=
  length (List.filter is_no_pc_info_line out).

(** A subprogram DIE with neither [DW_AT_ranges] nor [DW_AT_low_pc]. *)
Definition lacks_pc_attributes (die : DIE) : bool :=
  is_subprogram die
  && match attributes die !! "DW_AT_ranges", attributes die !! "DW_AT_low_pc" with
     | None, None => true
     | _, _ => false
     end.

(** Counters added field by field. *)
Definition add_counts (c d : counters) : counters :=
  {| cu_count := cu_count c + cu_count d;
     subprog_count := subprog_count c + subprog_count d;
     subprog_with_pc := subprog_with_pc c + subprog_with_pc d |}.

(** A DIE processed on its own, the counters at zero. *)
Definition die_run (w : World) (dwarf_info : DWARFInfo) (die : DIE) : M counters :=
  process_die w dwarf_info counters0 die.

(** Two runs that print the same lines and end the same way, whatever the
    counters they return. *)
Definition same_run (m1 m2 : M counters) : Prop :=
  output m1 = output m2
  ∧ match result m1, result m2 with
    | Normal _, Normal _ => True
    | Raise e1, Raise e2 => e1 = e2
    | _, _ => False
    end.

(** The names on the "Function:" lines of the cross-check, in order. *)
Definition function_lines (out : list line) : list string :=
  omap (λ l, match l with PFunction n => Some n | _ => None end) out.

Definition is_var_line (l : line) : bool :=
  match l with
  | PVar _ _ _ => true
  | _ => false
  end.

(** The subprograms the cross-check can report: those with a PC range. *)
Definition has_pc_range (subprog : Subprogram) : Prop :=
  is_Some (low_high_pc subprog).

(** ** A second sample: helpers that can be imported

    The helpers return two subprograms with a PC range; the variables of
    [main] are seven, those of [helper] cannot be extracted.  The CFG has
    a function at [main_addr]. *)
Module Sample2.

Definition subprog_helper : Subprogram :=
  {| directory := "/src"; file_name := "a.c"; func_name := "helper";
     low_high_pc := Some (0x10920, 0x10930)%Z; cu_offset := 0 |}.

(** A subprogram the helpers return without a PC range. *)
Definition subprog_extern : Subprogram :=
  {| directory := "/src"; file_name := "a.c"; func_name := "puts";
     low_high_pc := None; cu_offset := 0 |}.

Definition var (n : string) (param : bool) : VarTuple :=
  {| var_name := n; var_type := "int"; func_param := param |}.

Definition seven_vars : list VarTuple :=
  [var "argc" true; var "argv" true; var "i" false; var "j" false;
   var "k" false; var "n" false; var "m" false].

Definition vars_of (subprog : Subprogram) : ext (list VarTuple) :=
  if String.eqb (func_name subprog) "main" then Returns seven_vars
  else Raises "unsupported location expression".

Definition fn_main : AngrFunction := {| name := "main"; size := 64 |}.

Definition cfg_with_main : CFG :=
  {| functions := [(0x10400%Z, Sample.fn_start); (0x10908%Z, fn_main)];
     model_type := "<class 'angr.knowledge_plugins.cfg.cfg_model.CFGModel'>" |}.

Definition world_with (subprogs : list Subprogram) : World :=
  {| argv := ["diagnose_dwarf.py"; "a.out"];
     elftools_version := "0.29";
     open_elf := λ _, Returns Sample.elf;
     describe_form_class := Sample.form_class;
     import_dwarf_helpers := Returns tt;
     helper_get_dwarf_info := λ _, Returns tt;
     dwarf_info_to_context := Returns tt;
     dwarf_info_to_subprograms := Returns subprogs;
     dwarf_subprogram_to_vars := vars_of;
     import_angr := Returns "9.2.6";
     angr_Project := λ _, Returns Sample.project;
     import_sim_exec := Returns tt;
     LessSimpleDominatorStrategy := λ _, Returns Sample.strategy |}.

Definition world : World := world_with [subprog_helper; Sample.subprog_main].

End Sample2.

(** * Properties *)

(** ** The model at work *)

(** Strict UTF-8: an accented letter and the last code point are accepted;
    a stray byte, an overlong form, a surrogate, a code point above
    U+10FFFF and a truncated sequence are not. *)
Example utf8_valid_examples :
  utf8_valid "main" = true
  ∧ utf8_valid (String "195" (String "169" EmptyString)) = true
  ∧ utf8_valid
      (String "244" (String "143" (String "191" (String "191" EmptyString))))
    = true
  ∧ utf8_valid (String "255" EmptyString) = false
  ∧ utf8_valid (String "192" (String "128" EmptyString)) = false
  ∧ utf8_valid (String "237" (String "160" (String "128" EmptyString))) = false
  ∧ utf8_valid
      (String "244" (String "144" (String "128" (String "128" EmptyString))))
    = false
  ∧ utf8_valid (String "226" (String "130" EmptyString)) = false.
Proof. by repeat split. Qed.

(** What the script prints for [main] in the sample. *)
Example process_die_sample_main :
  render <$> output (process_die Sample.world Sample.dwarf_info counters0
                       Sample.die_main)
  = [(nl ++ "  Subprogram: main")%string;
     "    low_pc=0x10908, high_pc=0x10948"].
Proof. vm_compute. reflexivity. Qed.

(** The whole run on the sample ends normally, with status 0. *)
Example main_sample :
  result (main Sample.world) = Normal tt
  ∧ exit_status (main Sample.world) = 0%Z
  ∧ length (output (main Sample.world)) = 49.
Proof. vm_compute. by repeat split. Qed.

(** ** Runs *)

Lemma M_eta {A} (m : M A) : Run (output m) (result m) = m.
Proof. by destruct m. Qed.

Lemma bind_Normal {A B} (m : M A) (k : A → M B) a :
  result m = Normal a →
  m ≫= k = Run (output m ++ output (k a)) (result (k a)).
Proof. intros H. unfold mbind, M_bind. by rewrite H. Qed.

Lemma bind_Raise {A B} (m : M A) (k : A → M B) e :
  result m = Raise e → m ≫= k = Run (output m) (Raise e).
Proof. intros H. unfold mbind, M_bind. by rewrite H. Qed.

Lemma mret_bind {A B} (a : A) (k : A → M B) : mret a ≫= k = k a.
Proof. unfold mbind, M_bind. simpl. apply M_eta. Qed.

Lemma emit_bind {B} (l : line) (k : unit → M B) :
  emit l ≫= k = Run (l :: output (k tt)) (result (k tt)).
Proof. reflexivity. Qed.

Lemma raise_bind {A B} e (k : A → M B) : raise e ≫= k = raise e.
Proof. reflexivity. Qed.

Lemma bind_assoc {A B C} (m : M A) (k : A → M B) (h : B → M C) :
  (m ≫= k) ≫= h = m ≫= (λ a, k a ≫= h).
Proof.
  unfold mbind, M_bind.
  destruct m as [out [a|e]]; simpl; [|done].
  destruct (k a) as [out' [b|e]]; simpl; [|done].
  by rewrite app_assoc.
Qed.

Lemma for_each_app {A S} (body : S → A → M S) xs ys s :
  for_each body (xs ++ ys) s = for_each body xs s ≫= for_each body ys.
Proof.
  revert s. induction xs as [|x xs IH]; intros s.
  - cbn [for_each app]. by rewrite mret_bind.
  - change (for_each body ((x :: xs) ++ ys) s)
      with (body s x ≫= for_each body (xs ++ ys)).
    change (for_each body (x :: xs) s) with (body s x ≫= for_each body xs).
    rewrite bind_assoc.
    destruct (body s x) as [out [s'|e]]; [|done].
    unfold mbind at 1 3, M_bind; simpl. by rewrite IH.
Qed.

(** ** The PC-range resolver *)

Lemma process_die_subprogram w dwarf_info c die :
  tag die = "DW_TAG_subprogram" →
  process_die w dwarf_info c die =
    (func_name ← get_func_name die;
     match attributes die !! "DW_AT_ranges" with
     | Some ranges_attr =>
         ranges_branch dwarf_info func_name ranges_attr (incr_subprog c)
     | None =>
         match attributes die !! "DW_AT_low_pc" with
         | Some low_attr =>
             low_high_branch w die func_name low_attr (incr_subprog c)
         | None => emit (PNoPcInfo func_name);; mret (incr_subprog c)
         end
     end).
Proof. intros Htag. unfold process_die. by rewrite Htag. Qed.

Lemma process_die_other w dwarf_info c die :
  is_subprogram die = false → process_die w dwarf_info c die = mret c.
Proof. unfold is_subprogram, process_die. by intros ->. Qed.

(** C1: a subprogram DIE without [DW_AT_ranges] that has [DW_AT_low_pc] and
    [DW_AT_high_pc] is reported from these bounds: the low bound is the
    value of [DW_AT_low_pc]; the high bound is the value of [DW_AT_high_pc]
    when its form class is "address", the low bound plus that value when
    the class is "constant" (the sum of the two integers), and [None] for
    every other class. *)
Theorem low_high_pc_bounds w dwarf_info c die low_attr highpc_attr highpc_class :
  tag die = "DW_TAG_subprogram" →
  attributes die !! "DW_AT_ranges" = None →
  attributes die !! "DW_AT_low_pc" = Some low_attr →
  attributes die !! "DW_AT_high_pc" = Some highpc_attr →
  describe_form_class w (form highpc_attr) = Returns highpc_class →
  let low_pc := value low_attr in
  let high_pc := resolve_high_pc w low_pc highpc_attr in
  process_die w dwarf_info c die =
    (func_name ← get_func_name die;
     high_pc ← high_pc;
     report_low_high func_name low_pc high_pc (incr_subprog c))
  ∧ (highpc_class = "address" → high_pc = mret (Some (value highpc_attr)))
  ∧ (highpc_class = "constant" →
       high_pc = (sum ← py_add low_pc (value highpc_attr); mret (Some sum))
       ∧ ∀ low offset : Z,
           low_pc = VInt low → value highpc_attr = VInt offset →
           high_pc = mret (Some (VInt (low + offset))))
  ∧ (highpc_class ≠ "address" → highpc_class ≠ "constant" →
       high_pc = mret None).
Proof.
  intros Htag Hranges Hlow Hhigh Hclass low_pc high_pc.
  split.
  { rewrite process_die_subprogram by done.
    rewrite Hranges, Hlow. unfold low_high_branch. by rewrite Hhigh. }
  subst high_pc. unfold resolve_high_pc. rewrite Hclass. simpl call.
  rewrite mret_bind.
  split; [|split].
  - by intros ->.
  - intros ->. simpl. split; [done|].
    intros low offset -> ->. done.
  - intros Haddr Hconst.
    apply String.eqb_neq in Haddr, Hconst. by rewrite Haddr, Hconst.
Qed.

(** The subprogram [main] of the sample: class "constant", so the high
    bound is 0x10908 + 0x40. *)
Lemma low_high_pc_bounds_witness :
  resolve_high_pc Sample.world (VInt 0x10908)
    (Sample.attr "DW_FORM_data4" (VInt 0x40))
  = mret (Some (VInt 0x10948)).
Proof.
  refine (proj2 (proj1 (proj2 (proj2
    (low_high_pc_bounds Sample.world Sample.dwarf_info counters0
       Sample.die_main (Sample.attr "DW_FORM_addr" (VInt 0x10908))
       (Sample.attr "DW_FORM_data4" (VInt 0x40)) "constant"
       _ _ _ _ _))) _) 0x10908%Z 0x40%Z _ _);
    vm_compute; reflexivity.
Defined.

Lemma get_func_name_without_high_pc die :
  get_func_name (without_high_pc die) = get_func_name die.
Proof.
  unfold get_func_name, without_high_pc; simpl.
  by rewrite lookup_delete_ne.
Qed.

Lemma process_die_low_pc_only w dwarf_info c die func_name low_attr :
  tag die = "DW_TAG_subprogram" →
  get_func_name die = mret func_name →
  attributes die !! "DW_AT_ranges" = None →
  attributes die !! "DW_AT_low_pc" = Some low_attr →
  attributes die !! "DW_AT_high_pc" = None →
  process_die w dwarf_info c die = mret (incr_subprog c).
Proof.
  intros Htag Hname Hranges Hlow Hhigh.
  rewrite process_die_subprogram by done.
  rewrite Hname, mret_bind, Hranges, Hlow.
  unfold low_high_branch. by rewrite Hhigh.
Qed.

Lemma process_die_falsy_high_pc w dwarf_info c die func_name low_attr
    highpc_attr high_pc :
  tag die = "DW_TAG_subprogram" →
  get_func_name die = mret func_name →
  attributes die !! "DW_AT_ranges" = None →
  attributes die !! "DW_AT_low_pc" = Some low_attr →
  attributes die !! "DW_AT_high_pc" = Some highpc_attr →
  resolve_high_pc w (value low_attr) highpc_attr = mret high_pc →
  py_truthy_opt high_pc = false →
  process_die w dwarf_info c die = mret (incr_subprog c).
Proof.
  intros Htag Hname Hranges Hlow Hhigh Hres Hfalsy.
  rewrite process_die_subprogram by done.
  rewrite Hname, mret_bind, Hranges, Hlow.
  unfold low_high_branch. rewrite Hhigh, Hres, mret_bind.
  unfold report_low_high. destruct high_pc as [hp|]; [|done].
  simpl in Hfalsy. by rewrite Hfalsy.
Qed.

(** C3: in the low/high-PC branch, a [DW_AT_high_pc] whose resolved bound
    is false ([0], or [None] from a form class that is neither "address"
    nor "constant") is treated as if the attribute were absent: nothing is
    printed for the subprogram, so no low/high PC line, and
    [subprog_with_pc] is left as it was; only [subprog_count] grows. *)
Theorem falsy_high_pc_as_absent w dwarf_info c die func_name low_attr
    highpc_attr high_pc :
  tag die = "DW_TAG_subprogram" →
  get_func_name die = mret func_name →
  attributes die !! "DW_AT_ranges" = None →
  attributes die !! "DW_AT_low_pc" = Some low_attr →
  attributes die !! "DW_AT_high_pc" = Some highpc_attr →
  resolve_high_pc w (value low_attr) highpc_attr = mret high_pc →
  py_truthy_opt high_pc = false →
  process_die w dwarf_info c die = Run [] (Normal (incr_subprog c))
  ∧ subprog_with_pc (incr_subprog c) = subprog_with_pc c
  ∧ process_die w dwarf_info c die
    = process_die w dwarf_info c (without_high_pc die).
Proof.
  intros Htag Hname Hranges Hlow Hhigh Hres Hfalsy.
  assert (process_die w dwarf_info c die = mret (incr_subprog c)) as ->
    by eauto using process_die_falsy_high_pc.
  split; [done|]. split; [done|].
  symmetry. apply process_die_low_pc_only with func_name low_attr; simpl.
  - done.
  - by rewrite get_func_name_without_high_pc.
  - by rewrite lookup_delete_ne.
  - by rewrite lookup_delete_ne.
  - by rewrite lookup_delete_eq.
Qed.

(** The subprogram [stub] of the sample: class "address", value [0]. *)
Lemma falsy_high_pc_as_absent_witness :
  process_die Sample.world Sample.dwarf_info counters0 Sample.die_stub
  = Run [] (Normal (incr_subprog counters0)).
Proof.
  refine (proj1 (falsy_high_pc_as_absent Sample.world Sample.dwarf_info
    counters0 Sample.die_stub (Some (VStr "stub"))
    (Sample.attr "DW_FORM_addr" (VInt 0))
    (Sample.attr "DW_FORM_addr" (VInt 0)) (Some (VInt 0)) _ _ _ _ _ _ _));
    vm_compute; reflexivity.
Defined.

(** C4: a subprogram DIE with neither [DW_AT_ranges] nor [DW_AT_low_pc]
    (whose name, if any, decodes) prints exactly one line, the "NO PC INFO"
    report; it adds one to [subprog_count] and nothing to
    [subprog_with_pc]. *)
Theorem no_pc_info_reported w dwarf_info c die func_name :
  tag die = "DW_TAG_subprogram" →
  get_func_name die = mret func_name →
  attributes die !! "DW_AT_ranges" = None →
  attributes die !! "DW_AT_low_pc" = None →
  ∃ c',
    process_die w dwarf_info c die = Run [PNoPcInfo func_name] (Normal c')
    ∧ render (PNoPcInfo func_name)
      = (nl ++ "  Subprogram: " ++ py_str_opt func_name ++ " - NO PC INFO")%string
    ∧ subprog_with_pc c' = subprog_with_pc c
    ∧ subprog_count c' = S (subprog_count c).
Proof.
  intros Htag Hname Hranges Hlow.
  exists (incr_subprog c).
  rewrite process_die_subprogram by done.
  by rewrite Hname, mret_bind, Hranges, Hlow.
Qed.

(** The subprogram [puts] of the sample. *)
Lemma no_pc_info_reported_witness :
  ∃ c',
    process_die Sample.world Sample.dwarf_info counters0 Sample.die_puts
    = Run [PNoPcInfo (Some (VStr "puts"))] (Normal c')
    ∧ render (PNoPcInfo (Some (VStr "puts")))
      = (nl ++ "  Subprogram: puts - NO PC INFO")%string
    ∧ subprog_with_pc c' = 0
    ∧ subprog_count c' = 1.
Proof.
  refine (no_pc_info_reported Sample.world Sample.dwarf_info counters0
    Sample.die_puts (Some (VStr "puts")) _ _ _ _);
    vm_compute; reflexivity.
Defined.

(** ** The ranges branch *)

Lemma ranges_branch_resolved dwarf_info func_name ranges_attr c ranges :
  get_range_list_at_offset dwarf_info (value ranges_attr) = Returns ranges →
  ranges_branch dwarf_info func_name ranges_attr c =
    (emit (PSubprogram func_name);;
     emit (PHasRanges (value ranges_attr));;
     emit PRangeListType;;
     match ranges with
     | first_range :: _ =>
         describe_first_range first_range;; mret (incr_with_pc c)
     | [] => mret c
     end).
Proof.
  intros Hres. unfold ranges_branch. rewrite Hres. simpl call.
  rewrite mret_bind. unfold try_except.
  destruct ranges as [|first_range rest]; [done|].
  unfold describe_first_range, print_if_has.
  by repeat case_match.
Qed.

Lemma ranges_branch_failed dwarf_info func_name ranges_attr c e :
  get_range_list_at_offset dwarf_info (value ranges_attr) = Raises e →
  ranges_branch dwarf_info func_name ranges_attr c =
    Run [PSubprogram func_name; PRangesError e] (Normal c).
Proof. intros Hres. unfold ranges_branch. by rewrite Hres. Qed.

Lemma process_die_ranges w dwarf_info c die func_name ranges_attr :
  tag die = "DW_TAG_subprogram" →
  get_func_name die = mret func_name →
  attributes die !! "DW_AT_ranges" = Some ranges_attr →
  process_die w dwarf_info c die =
    ranges_branch dwarf_info func_name ranges_attr (incr_subprog c).
Proof.
  intros Htag Hname Hranges. rewrite process_die_subprogram by done.
  by rewrite Hname, mret_bind, Hranges.
Qed.

(** Resolving the name prints nothing. *)
Lemma get_func_name_silent die : output (get_func_name die) = [].
Proof.
  unfold get_func_name, bytes_decode_utf8.
  destruct (attributes die !! "DW_AT_name") as [a|]; [|done].
  destruct (value a) as [n|b|s]; [done| |done].
  by destruct (utf8_valid b).
Qed.

(** Membership of a line in an explicit list of other lines. *)
Ltac other_lines :=
  let Hin := fresh "Hin" in
  intros Hin;
  repeat (apply elem_of_cons in Hin as [Hin|Hin]; [discriminate Hin|]);
  by apply elem_of_nil in Hin.

(** Only the last branch of the resolver prints "NO PC INFO". *)
Lemma no_pc_info_only_without_attributes w dwarf_info c die n :
  PNoPcInfo n ∈ output (process_die w dwarf_info c die) →
  attributes die !! "DW_AT_ranges" = None
  ∧ attributes die !! "DW_AT_low_pc" = None.
Proof.
  unfold process_die.
  destruct (String.eqb _ _); [|other_lines].
  destruct (get_func_name die) as [out [func_name|e]] eqn:Hname.
  all: pose proof (get_func_name_silent die) as Hout;
    rewrite Hname in Hout; simpl in Hout; subst out.
  2: other_lines.
  rewrite (mret_bind func_name).
  destruct (attributes die !! "DW_AT_ranges") as [ranges_attr|].
  { destruct (get_range_list_at_offset dwarf_info (value ranges_attr))
      as [ranges|e] eqn:Hres.
    - rewrite (ranges_branch_resolved _ _ _ _ _ Hres).
      destruct ranges as [|first_range rest]; simpl.
      + other_lines.
      + unfold print_if_has. repeat case_match; simpl; other_lines.
    - rewrite (ranges_branch_failed _ _ _ _ _ Hres). other_lines. }
  destruct (attributes die !! "DW_AT_low_pc") as [low_attr|]; [|done].
  unfold low_high_branch.
  destruct (attributes die !! "DW_AT_high_pc") as [highpc_attr|];
    [|other_lines].
  unfold resolve_high_pc.
  destruct (describe_form_class w (form highpc_attr)) as [cls|e];
    [|other_lines].
  simpl call. rewrite mret_bind.
  unfold report_low_high, py_add, py_hex.
  repeat (case_match; simpl); other_lines.
Qed.

(** C10: a subprogram DIE with a low PC but no usable high bound
    ([DW_AT_high_pc] absent, or resolved to [0] or to [None]), and likewise
    one whose [DW_AT_ranges] resolves to an empty range list, is passed
    over: [subprog_with_pc] is left as it was and no "NO PC INFO" line is
    printed.  The former prints nothing at all, the latter only the three
    header lines of the ranges branch.  The "NO PC INFO" line is printed
    only for DIEs lacking both attributes. *)
Theorem skipped_without_report w dwarf_info c die func_name :
  tag die = "DW_TAG_subprogram" →
  get_func_name die = mret func_name →
  no_usable_pc w dwarf_info die →
  process_die w dwarf_info c die
    = Run (ranges_header func_name die) (Normal (incr_subprog c))
  ∧ subprog_with_pc (incr_subprog c) = subprog_with_pc c
  ∧ (∀ n, PNoPcInfo n ∉ output (process_die w dwarf_info c die))
  ∧ (∀ c' die' n,
       PNoPcInfo n ∈ output (process_die w dwarf_info c' die') →
       attributes die' !! "DW_AT_ranges" = None
       ∧ attributes die' !! "DW_AT_low_pc" = None).
Proof.
  intros Htag Hname Hskip.
  split; [|split; [done|split]].
  - unfold ranges_header.
    destruct Hskip as [low_attr Hranges Hlow Hhigh
                      |low_attr highpc_attr high_pc Hranges Hlow Hhigh Hres Hfalsy
                      |ranges_attr Hranges Hres].
    + rewrite Hranges. eauto using process_die_low_pc_only.
    + rewrite Hranges. eauto using process_die_falsy_high_pc.
    + rewrite Hranges.
      rewrite (process_die_ranges _ _ _ _ _ _ Htag Hname Hranges).
      by rewrite (ranges_branch_resolved _ _ _ _ _ Hres).
  - intros n [Hin1 Hin2]%no_pc_info_only_without_attributes.
    destruct Hskip; congruence.
  - intros c' die' n. apply no_pc_info_only_without_attributes.
Qed.

(** The subprogram [cold] of the sample, whose range list is empty. *)
Lemma skipped_without_report_witness :
  process_die Sample.world Sample.dwarf_info counters0 Sample.die_cold
  = Run [PSubprogram (Some (VStr "cold")); PHasRanges (VInt 64); PRangeListType]
      (Normal (incr_subprog counters0)).
Proof.
  refine (proj1 (skipped_without_report Sample.world Sample.dwarf_info
    counters0 Sample.die_cold (Some (VStr "cold")) _ _ _)).
  - vm_compute; reflexivity.
  - vm_compute; reflexivity.
  - apply ranges_empty with (Sample.attr "DW_FORM_sec_offset" (VInt 64));
      vm_compute; reflexivity.
Defined.

Lemma describe_first_range_result first_range :
  result (describe_first_range first_range) = Normal tt.
Proof.
  unfold describe_first_range, print_if_has.
  by repeat case_match.
Qed.

Lemma describe_first_range_entries first_range :
  entries_printed (output (describe_first_range first_range)) = 1.
Proof.
  unfold describe_first_range, print_if_has.
  by repeat case_match.
Qed.

(** C6, as the code has it: a subprogram whose [DW_AT_ranges] resolves to a
    non-empty range list has exactly one range entry described, the first
    of the list, whatever the length of the list: the lines printed are the
    three header lines and the description of [ranges[0]], and the
    subprogram is counted in [subprog_with_pc]. *)
Theorem first_range_entry_only w dwarf_info c die func_name ranges_attr
    first_range rest :
  tag die = "DW_TAG_subprogram" →
  get_func_name die = mret func_name →
  attributes die !! "DW_AT_ranges" = Some ranges_attr →
  get_range_list_at_offset dwarf_info (value ranges_attr)
    = Returns (first_range :: rest) →
  process_die w dwarf_info c die
    = Run ([PSubprogram func_name; PHasRanges (value ranges_attr);
            PRangeListType]
           ++ output (describe_first_range first_range))
        (Normal (incr_with_pc (incr_subprog c)))
  ∧ entries_printed (output (process_die w dwarf_info c die)) = 1.
Proof.
  intros Htag Hname Hranges Hres.
  rewrite (process_die_ranges _ _ _ _ _ _ Htag Hname Hranges).
  rewrite (ranges_branch_resolved _ _ _ _ _ Hres).
  pose proof (describe_first_range_result first_range) as Hnormal.
  pose proof (describe_first_range_entries first_range) as Hone.
  rewrite !emit_bind. simpl.
  rewrite (bind_Normal _ _ tt Hnormal). simpl.
  rewrite app_nil_r. split; [done|].
  unfold entries_printed in *. by simpl.
Qed.

(** The subprogram [split] of the sample, with its three ranges. *)
Lemma first_range_entry_only_witness :
  entries_printed
    (output (process_die Sample.world Sample.dwarf_info counters0
               Sample.die_split)) = 1.
Proof.
  refine (proj2 (first_range_entry_only Sample.world Sample.dwarf_info
    counters0 Sample.die_split (Some (VStr "split"))
    (Sample.attr "DW_FORM_sec_offset" (VInt 16))
    (Sample.range_entry 0x200 0x240)
    [Sample.range_entry 0x300 0x310; Sample.range_entry 0x400 0x480]
    _ _ _ _));
    vm_compute; reflexivity.
Defined.

(** C6 as stated fails: the range list of [split] has three entries, and
    the run describes one of them (seven lines in all, two of them
    attribute values of that first entry). *)
Lemma printed_entries_not_list_length :
  let out :=
    output (process_die Sample.world Sample.dwarf_info counters0
              Sample.die_split) in
  attributes Sample.die_split !! "DW_AT_ranges"
    = Some (Sample.attr "DW_FORM_sec_offset" (VInt 16))
  ∧ get_range_list_at_offset Sample.dwarf_info (VInt 16)
    = Returns Sample.split_ranges
  ∧ length Sample.split_ranges = 3
  ∧ out = [PSubprogram (Some (VStr "split")); PHasRanges (VInt 16);
           PRangeListType;
           PFirstEntryType "<class 'elftools.dwarf.ranges.RangeEntry'>";
           PFirstEntryAttrs
             "['begin_offset', 'end_offset', 'entry_length', 'entry_offset']";
           PHasField "begin_offset" (VInt 0x200);
           PHasField "end_offset" (VInt 0x240)]
  ∧ entries_printed out = 1
  ∧ entries_printed out ≠ length Sample.split_ranges.
Proof. vm_compute. by repeat split. Qed.

(** ** The start of [main] *)

Lemma argv_binary_path (w : World) binary_path :
  argv w !! 1 = Some binary_path →
  bool_decide (length (argv w) < 2) = false
  ∧ default EmptyString (argv w !! 1) = binary_path.
Proof.
  intros Harg. split; [|by rewrite Harg].
  apply bool_decide_eq_false. apply lookup_lt_Some in Harg. lia.
Qed.

(** [main] once the binary is open and has debug information. *)
Lemma main_with_dwarf w binary_path elf :
  argv w !! 1 = Some binary_path →
  open_elf w binary_path = Returns elf →
  has_dwarf_info elf = true →
  main w =
    (emit (PAnalyzing binary_path);;
     emit (PElftoolsVersion (elftools_version w));;
     emit PDwarfFound;;
     dwarf_summary w (get_dwarf_info elf);;
     tygr_phase w binary_path;;
     symexec_phase w binary_path).
Proof.
  intros [Hlen Hpath]%argv_binary_path Hopen Hdwarf.
  unfold main. rewrite Hlen, Hpath, Hopen. simpl call.
  rewrite !mret_bind, Hdwarf. simpl negb. cbv iota.
  by rewrite mret_bind.
Qed.

(** C2: when the opened binary has no DWARF information, the script prints
    the literal message "ERROR: No DWARF info in binary" (after the two
    lines naming the binary and the pyelftools version) and exits with
    status 1; nothing else is printed, whatever the binary holds: no
    compilation unit and no subprogram is looked at. *)
Theorem no_dwarf_exits w binary_path elf :
  argv w !! 1 = Some binary_path →
  open_elf w binary_path = Returns elf →
  has_dwarf_info elf = false →
  main w = Run [PAnalyzing binary_path; PElftoolsVersion (elftools_version w);
                PNoDwarf]
             (Raise (SystemExit 1))
  ∧ render PNoDwarf = "ERROR: No DWARF info in binary"
  ∧ exit_status (main w) = 1%Z.
Proof.
  intros [Hlen Hpath]%argv_binary_path Hopen Hdwarf.
  assert (main w = Run [PAnalyzing binary_path;
                        PElftoolsVersion (elftools_version w); PNoDwarf]
                     (Raise (SystemExit 1))) as ->; [|done].
  unfold main. rewrite Hlen, Hpath, Hopen. simpl call.
  by rewrite !mret_bind, Hdwarf.
Qed.

(** The stripped binary of the sample. *)
Lemma no_dwarf_exits_witness :
  let w := Sample.world_of ["diagnose_dwarf.py"; "a.out"]
             (Returns Sample.stripped) in
  main w = Run [PAnalyzing "a.out"; PElftoolsVersion "0.29"; PNoDwarf]
             (Raise (SystemExit 1))
  ∧ render PNoDwarf = "ERROR: No DWARF info in binary"
  ∧ exit_status (main w) = 1%Z.
Proof.
  refine (no_dwarf_exits
    (Sample.world_of ["diagnose_dwarf.py"; "a.out"] (Returns Sample.stripped))
    "a.out" Sample.stripped _ _ _);
    vm_compute; reflexivity.
Defined.

(** ** Exceptions and the guarded phases *)

Lemma no_exit_mret {A} (a : A) : no_exit (mret a).
Proof. by intros code. Qed.

Lemma no_exit_emit l : no_exit (emit l).
Proof. by intros code. Qed.

Lemma no_exit_call {A} (r : ext A) : no_exit (call r).
Proof. intros code. by destruct r. Qed.

Lemma no_exit_bind {A B} (m : M A) (k : A → M B) :
  no_exit m → (∀ a, no_exit (k a)) → no_exit (m ≫= k).
Proof.
  intros Hm Hk code. unfold mbind, M_bind.
  destruct (result m) as [a|e] eqn:Hres; simpl.
  - apply Hk.
  - intros [= ->]. by apply (Hm code).
Qed.

Lemma no_exit_for_each {A S} (body : S → A → M S) xs s :
  (∀ s x, no_exit (body s x)) → no_exit (for_each body xs s).
Proof.
  intros Hbody. revert s.
  induction xs as [|x xs IH]; intros s; simpl.
  - apply no_exit_mret.
  - apply no_exit_bind; auto.
Qed.

Lemma no_exit_try_except {A} (body : M A) handler :
  no_exit body → (∀ e, no_exit (handler e)) → no_exit (try_except body handler).
Proof.
  intros Hbody Hhandler code. unfold try_except.
  destruct (result body) as [a|[e|code']] eqn:Hres; simpl.
  - by rewrite Hres.
  - apply Hhandler.
  - rewrite Hres. intros [= ->]. by apply (Hbody code).
Qed.

Ltac no_exit_step :=
  first [ apply no_exit_bind; [|intros ?]
        | apply no_exit_try_except; [|intros ?]
        | apply no_exit_for_each; intros ? ?
        | apply no_exit_mret | apply no_exit_emit | apply no_exit_call ].

Lemma no_exit_tygr_body w binary_path : no_exit (tygr_body w binary_path).
Proof.
  unfold tygr_body, for_, report_subprogram, report_vars, print_var,
    subscript_pc.
  repeat no_exit_step.
  - destruct (low_high_pc _); [apply no_exit_mret|by intros code].
  - case_bool_decide; repeat no_exit_step.
Qed.

Lemma no_exit_report_main cfg : no_exit (report_main cfg).
Proof.
  unfold report_main, for_, print_function_entry.
  destruct (functions_get _ _); repeat no_exit_step.
Qed.

Lemma no_exit_symexec_body w binary_path : no_exit (symexec_body w binary_path).
Proof.
  unfold symexec_body, try_sim_exec.
  repeat first [ apply no_exit_report_main | no_exit_step ].
Qed.

Lemma guarded_try_except header body error :
  no_exit body →
  guarded header body error
    (emit header;;
     try_except body (λ e, emit (error e);; emit (PTraceback e))).
Proof.
  intros Hbody. unfold guarded, try_except.
  destruct body as [out [[]|[e|code]]]; simpl; try done.
  by apply (Hbody code).
Qed.

Lemma tygr_phase_guarded w binary_path :
  guarded PTygrHeader (tygr_body w binary_path) PTygrError
    (tygr_phase w binary_path).
Proof. apply guarded_try_except, no_exit_tygr_body. Qed.

Lemma symexec_phase_guarded w binary_path :
  guarded PSymHeader (symexec_body w binary_path) PSymError
    (symexec_phase w binary_path).
Proof. apply guarded_try_except, no_exit_symexec_body. Qed.

Lemma guarded_result header body error phase :
  guarded header body error phase →
  result phase = Normal tt ∧ ∃ rest, output phase = header :: rest.
Proof.
  unfold guarded. destruct (result body) as [?|[e|code]]; [| |done].
  all: intros ->; eauto.
Qed.

(** C7, as the code has it: the helper cross-check and the
    symbolic-execution test are each guarded by their own [try]/[except]:
    an exception raised inside the phase is caught and logged (the error
    line and the trace) and the phase ends normally, so whatever follows
    still runs.  The DWARF summary has no guard of its own, only the
    resolution of a subprogram's range list is guarded inside it: when the
    summary completes, [main] goes through both later phases and ends
    normally; an exception that escapes the summary ends [main] there. *)
Theorem guarded_phases w binary_path :
  guarded PTygrHeader (tygr_body w binary_path) PTygrError
    (tygr_phase w binary_path)
  ∧ guarded PSymHeader (symexec_body w binary_path) PSymError
      (symexec_phase w binary_path)
  ∧ (∀ dwarf_info func_name ranges_attr c e,
       get_range_list_at_offset dwarf_info (value ranges_attr) = Raises e →
       ranges_branch dwarf_info func_name ranges_attr c
       = Run [PSubprogram func_name; PRangesError e] (Normal c))
  ∧ (∀ elf,
       argv w !! 1 = Some binary_path →
       open_elf w binary_path = Returns elf →
       has_dwarf_info elf = true →
       let summary := dwarf_summary w (get_dwarf_info elf) in
       let banner := [PAnalyzing binary_path;
                      PElftoolsVersion (elftools_version w); PDwarfFound] in
       match result summary with
       | Normal _ =>
           main w = Run (banner ++ output summary
                         ++ output (tygr_phase w binary_path)
                         ++ output (symexec_phase w binary_path))
                      (Normal tt)
       | Raise e => main w = Run (banner ++ output summary) (Raise e)
       end).
Proof.
  split; [apply tygr_phase_guarded|].
  split; [apply symexec_phase_guarded|].
  split; [intros; by apply ranges_branch_failed|].
  intros elf Harg Hopen Hdwarf summary banner.
  rewrite (main_with_dwarf _ _ _ Harg Hopen Hdwarf).
  fold summary. rewrite !emit_bind.
  destruct (result summary) as [c|e] eqn:Hsummary.
  - destruct (guarded_result _ _ _ _ (tygr_phase_guarded w binary_path))
      as [Htygr _].
    destruct (guarded_result _ _ _ _ (symexec_phase_guarded w binary_path))
      as [Hsym _].
    rewrite (bind_Normal _ _ c Hsummary), (bind_Normal _ _ tt Htygr).
    cbn [output result]. by rewrite Hsym.
  - rewrite (bind_Raise _ _ e Hsummary). by cbn [output result].
Qed.

(** On the sample, where the helpers cannot be imported and
    [sim_exec_function] raises: both are logged and [main] ends normally. *)
Lemma guarded_phases_witness :
  main Sample.world
  = Run ([PAnalyzing "a.out"; PElftoolsVersion "0.29"; PDwarfFound]
         ++ output (dwarf_summary Sample.world Sample.dwarf_info)
         ++ output (tygr_phase Sample.world "a.out")
         ++ output (symexec_phase Sample.world "a.out"))
      (Normal tt).
Proof.
  refine (proj2 (proj2 (proj2 (guarded_phases Sample.world "a.out")))
            Sample.elf _ _ _);
    vm_compute; reflexivity.
Defined.

(** C7 as stated fails for the first phase: a subprogram name that is not
    UTF-8 raises [UnicodeDecodeError] in the DWARF summary; nothing catches
    it, and neither the cross-check nor the symbolic-execution test
    starts. *)
Lemma summary_exception_not_caught :
  let w := Sample.world_of ["diagnose_dwarf.py"; "a.out"]
             (Returns Sample.garbled) in
  let e := Exception "UnicodeDecodeError: 'utf-8' codec can't decode bytes" in
  dwarf_summary w (get_dwarf_info Sample.garbled) = Run [] (Raise e)
  ∧ main w
    = Run [PAnalyzing "a.out"; PElftoolsVersion "0.29"; PDwarfFound] (Raise e)
  ∧ (PTygrHeader ∉ output (main w))
  ∧ (PSymHeader ∉ output (main w))
  ∧ exit_status (main w) = 1%Z.
Proof.
  vm_compute. split; [done|]. split; [done|].
  split; [other_lines|]. split; [other_lines|done].
Qed.

(** ** The lookup of [main] in the recovered CFG *)

Lemma for_print_function_entry items :
  for_ print_function_entry items
  = Run (map (λ item, PFunctionEntry item.1 (name item.2)) items) (Normal tt).
Proof.
  unfold for_. induction items as [|item items IH]; [done|].
  cbn [for_each map].
  change (print_function_entry item)
    with (emit (PFunctionEntry item.1 (name item.2))).
  by rewrite emit_bind, IH.
Qed.

Lemma report_main_absent cfg :
  functions_get (functions cfg) main_addr = None →
  report_main cfg
  = Run ([PMainNotFound main_addr; PAvailableFunctions]
         ++ map (λ item, PFunctionEntry item.1 (name item.2))
              (take 10 (functions cfg)))
      (Normal tt).
Proof.
  intros Hget. unfold report_main. rewrite Hget.
  by rewrite !emit_bind, for_print_function_entry.
Qed.

(** The output of a sequence starts with the output of its first part. *)
Lemma bind_output_prefix {A B} (m : M A) (k : A → M B) :
  ∃ rest, output (m ≫= k) = (output m ++ rest)%list.
Proof.
  unfold mbind, M_bind. destruct (result m); simpl; [eauto|].
  exists []. by rewrite app_nil_r.
Qed.

Lemma output_emit_bind {B} (l : line) (k : unit → M B) :
  output (emit l ≫= k) = l :: output (k tt).
Proof. reflexivity. Qed.

Lemma output_bind_Normal {A B} (m : M A) (k : A → M B) a :
  result m = Normal a → output (m ≫= k) = (output m ++ output (k a))%list.
Proof. intros H. by rewrite (bind_Normal _ _ _ H). Qed.

(** C9: when [main_addr] (0x10908) is not a key of [cfg.functions], the
    script prints the warning and "Available functions:", then one line
    (address and name) for each of the first ten functions, at most ten
    lines; this raises nothing, and the phase goes on to the strategy test
    and ends normally. *)
Theorem main_absent_lists_functions w binary_path version proj cfg :
  import_angr w = Returns version →
  angr_Project w binary_path = Returns proj →
  CFGFast proj = Returns cfg →
  functions_get (functions cfg) main_addr = None →
  let listed := take 10 (functions cfg) in
  report_main cfg
  = Run ([PMainNotFound main_addr; PAvailableFunctions]
         ++ map (λ item, PFunctionEntry item.1 (name item.2)) listed)
      (Normal tt)
  ∧ (length listed ≤ 10)%nat
  ∧ listed ⊆ functions cfg
  ∧ render (PMainNotFound main_addr)
    = (nl ++ "WARNING: Main function NOT found at 0x10908")%string
  ∧ result (symexec_phase w binary_path) = Normal tt
  ∧ ∃ rest,
      output (symexec_phase w binary_path)
      = ([PSymHeader; PAngrVersion version; PProjectLoaded (proj_repr proj);
          PArchitecture (arch proj); PGeneratingCfg; PCfgGenerated;
          PCfgFunctions (length (functions cfg));
          PCfgModelType (model_type cfg)]
         ++ output (report_main cfg) ++ PStrategyHeader :: rest)%list.
Proof.
  intros Himport Hproj Hcfg Hget listed.
  pose proof (report_main_absent cfg Hget) as Hreport.
  split; [done|].
  split; [subst listed; rewrite length_take; lia|].
  split; [intros item; apply subseteq_take|].
  split; [done|].
  destruct (guarded_result _ _ _ _ (symexec_phase_guarded w binary_path))
    as [Hresult _].
  split; [done|].
  pose proof (symexec_phase_guarded w binary_path) as Hguard.
  unfold guarded in Hguard.
  assert (∃ rest, output (symexec_body w binary_path)
            = ([PAngrVersion version; PProjectLoaded (proj_repr proj);
                PArchitecture (arch proj); PGeneratingCfg; PCfgGenerated;
                PCfgFunctions (length (functions cfg));
                PCfgModelType (model_type cfg)]
               ++ output (report_main cfg) ++ PStrategyHeader :: rest)%list)
    as [rest Hbody].
  { unfold symexec_body. rewrite Himport. simpl call. rewrite mret_bind.
    rewrite output_emit_bind, Hproj. simpl call. rewrite mret_bind.
    rewrite !output_emit_bind, Hcfg. simpl call. rewrite mret_bind.
    rewrite !output_emit_bind.
    rewrite (output_bind_Normal (report_main cfg) _ tt)
      by (by rewrite Hreport).
    rewrite output_emit_bind.
    match goal with
    | |- context [output (?m ≫= ?k)] =>
        destruct (bind_output_prefix m k) as [rest ->]
    end.
    eexists. reflexivity. }
  destruct (result (symexec_body w binary_path)) as [?|[e|code]]; [| |done].
  - exists rest. by rewrite Hguard, Hbody.
  - exists (rest ++ [PSymError e; PTraceback e])%list.
    rewrite Hguard. cbn [output]. rewrite Hbody.
    by rewrite <- !app_assoc.
Qed.

(** The sample has twelve functions, none at [main_addr]: ten are listed. *)
Lemma main_absent_lists_functions_witness :
  report_main Sample.cfg_without_main
  = Run ([PMainNotFound main_addr; PAvailableFunctions]
         ++ map (λ item, PFunctionEntry item.1 (name item.2))
              (take 10 (functions Sample.cfg_without_main)))
      (Normal tt).
Proof.
  refine (proj1 (main_absent_lists_functions Sample.world "a.out" "9.2.6"
    Sample.project Sample.cfg_without_main _ _ _ _));
    vm_compute; reflexivity.
Defined.

(** ** DIE trees *)

(** Induction over a DIE tree: a property that holds of a DIE whenever it
    holds of all its children holds of every DIE. *)
Lemma DIE_ind (P : DIE → Prop) :
  (∀ t attrs cs, Forall P cs → P (mkDIE t attrs cs)) → ∀ die, P die.
Proof.
  intros Hnode. fix IH 1. intros [t attrs cs]. apply Hnode.
  induction cs as [|child cs IHcs]; constructor; [apply IH|apply IHcs].
Qed.

Lemma iter_die_subprograms die :
  length (List.filter is_subprogram (iter_die die)) = count_subprograms die.
Proof.
  induction die as [t attrs cs IH] using DIE_ind.
  cbn [iter_die count_subprograms List.filter].
  unfold is_subprogram at 1. cbn [tag].
  assert (length (List.filter is_subprogram (flat_map iter_die cs))
          = sum_list_with count_subprograms cs) as Hcs.
  { induction IH as [|child cs Hchild _ IHcs]; [done|].
    cbn [flat_map sum_list_with].
    rewrite List.filter_app, length_app. by rewrite Hchild, IHcs. }
  destruct (String.eqb t "DW_TAG_subprogram"); simpl; by rewrite Hcs.
Qed.

(** ** The summary counts *)

Ltac die_lines := simpl; repeat (constructor; [done|]); by constructor.

Lemma bind_result_Normal {A B} (m : M A) (k : A → M B) b :
  result (m ≫= k) = Normal b →
  ∃ a, result m = Normal a ∧ result (k a) = Normal b.
Proof.
  unfold mbind, M_bind. destruct (result m) as [a|e]; [|done]. eauto.
Qed.

Lemma bind_output_Forall {A B} (P : line → Prop) (m : M A) (k : A → M B) :
  Forall P (output m) → (∀ a, Forall P (output (k a))) →
  Forall P (output (m ≫= k)).
Proof.
  intros Hm Hk. unfold mbind, M_bind.
  destruct (result m); simpl; [|done]. apply Forall_app; auto.
Qed.

Lemma for_each_output_Forall {A S} (P : line → Prop) (body : S → A → M S) xs s :
  (∀ s x, Forall P (output (body s x))) →
  Forall P (output (for_each body xs s)).
Proof.
  intros Hbody. revert s. induction xs as [|x xs IH]; intros s; simpl.
  - constructor.
  - apply bind_output_Forall; auto.
Qed.

(** What a DIE does to the counters, when its processing completes, and
    what it prints. *)
Lemma process_die_run w dwarf_info c die :
  Forall is_die_line (output (process_die w dwarf_info c die))
  ∧ ∀ c', result (process_die w dwarf_info c die) = Normal c' →
      cu_count c' = cu_count c
      ∧ subprog_count c'
        = subprog_count c + (if is_subprogram die then 1 else 0).
Proof.
  unfold process_die, is_subprogram.
  destruct (String.eqb _ _).
  2:{ split; [constructor|]. intros c' [= <-]. lia. }
  destruct (get_func_name die) as [out [func_name|e]] eqn:Hname.
  all: pose proof (get_func_name_silent die) as Hout;
    rewrite Hname in Hout; simpl in Hout; subst out.
  2:{ split; [constructor|done]. }
  rewrite (mret_bind func_name).
  destruct (attributes die !! "DW_AT_ranges") as [ranges_attr|].
  { destruct (get_range_list_at_offset dwarf_info (value ranges_attr))
      as [ranges|e] eqn:Hres.
    - rewrite (ranges_branch_resolved _ _ _ _ _ Hres).
      destruct ranges as [|first_range rest].
      + split; [die_lines|]. intros c' [= <-]. simpl. lia.
      + unfold describe_first_range, print_if_has.
        repeat case_match; (split; [die_lines|]); intros c' [= <-]; simpl; lia.
    - rewrite (ranges_branch_failed _ _ _ _ _ Hres).
      split; [die_lines|]. intros c' [= <-]. simpl. lia. }
  destruct (attributes die !! "DW_AT_low_pc") as [low_attr|].
  2:{ split; [die_lines|]. intros c' [= <-]. simpl. lia. }
  unfold low_high_branch.
  destruct (attributes die !! "DW_AT_high_pc") as [highpc_attr|].
  2:{ split; [die_lines|]. intros c' [= <-]. simpl. lia. }
  unfold resolve_high_pc.
  destruct (describe_form_class w (form highpc_attr)) as [cls|e].
  2:{ split; [die_lines|done]. }
  simpl call. rewrite mret_bind.
  unfold report_low_high, py_add, py_hex.
  repeat (case_match; simpl); (split; [die_lines|]); intros c' Hc';
    simplify_eq/=; lia.
Qed.

Lemma walk_counts w dwarf_info dies c c' :
  result (for_each (process_die w dwarf_info) dies c) = Normal c' →
  cu_count c' = cu_count c
  ∧ subprog_count c'
    = subprog_count c + length (List.filter is_subprogram dies).
Proof.
  revert c. induction dies as [|die dies IH]; intros c; cbn [for_each].
  - intros [= <-]. simpl. lia.
  - intros (c1 & Hdie & Hdies)%bind_result_Normal.
    apply process_die_run in Hdie as [Hcu Hsub].
    apply IH in Hdies as [Hcu' Hsub'].
    cbn [List.filter]. destruct (is_subprogram die); simpl; lia.
Qed.

Lemma process_cu_counts w dwarf_info c cu c' :
  result (process_cu w dwarf_info c cu) = Normal c' →
  cu_count c' = S (cu_count c)
  ∧ subprog_count c' = subprog_count c + count_subprograms (get_top_DIE cu).
Proof.
  unfold process_cu. intros [Hcu Hsub]%walk_counts.
  by rewrite iter_die_subprograms in Hsub.
Qed.

Lemma cus_counts w dwarf_info cus c c' :
  result (for_each (process_cu w dwarf_info) cus c) = Normal c' →
  cu_count c' = cu_count c + length cus
  ∧ subprog_count c'
    = subprog_count c
      + sum_list_with (λ cu, count_subprograms (get_top_DIE cu)) cus.
Proof.
  revert c. induction cus as [|cu cus IH]; intros c; cbn [for_each].
  - intros [= <-]. simpl. lia.
  - intros (c1 & Hcu & Hcus)%bind_result_Normal.
    apply process_cu_counts in Hcu as [Hcu Hsub].
    apply IH in Hcus as [Hcu' Hsub']. simpl. lia.
Qed.

Lemma cus_lines w dwarf_info cus c :
  Forall is_die_line (output (for_each (process_cu w dwarf_info) cus c)).
Proof.
  apply for_each_output_Forall. intros c1 cu. unfold process_cu.
  apply for_each_output_Forall. intros c2 die. apply process_die_run.
Qed.

Lemma process_die_completes w dwarf_info c die :
  well_formed_die w die →
  ∃ c', result (process_die w dwarf_info c die) = Normal c'.
Proof.
  intros [[func_name Hname] Hpc]. unfold process_die.
  destruct (String.eqb _ _); [|by eexists].
  rewrite Hname, mret_bind.
  destruct (attributes die !! "DW_AT_ranges") as [ranges_attr|].
  { destruct (get_range_list_at_offset dwarf_info (value ranges_attr))
      as [ranges|e] eqn:Hres.
    - rewrite (ranges_branch_resolved _ _ _ _ _ Hres).
      destruct ranges as [|first_range rest]; [by eexists|].
      pose proof (describe_first_range_result first_range) as Hnormal.
      rewrite !emit_bind. cbn [result].
      rewrite (bind_Normal _ _ tt Hnormal). by eexists.
    - rewrite (ranges_branch_failed _ _ _ _ _ Hres). by eexists. }
  destruct (attributes die !! "DW_AT_low_pc") as [low_attr|]; [|by eexists].
  unfold low_high_branch.
  destruct (attributes die !! "DW_AT_high_pc") as [highpc_attr|];
    [|by eexists].
  destruct (Hpc low_attr highpc_attr) as (low & offset & cls & -> & Hoff & Hcls);
    [done..|].
  unfold resolve_high_pc. rewrite Hcls, Hoff. simpl call. rewrite mret_bind.
  unfold report_low_high, py_add, py_hex.
  repeat (case_match; simpl); simplify_eq/=; by eexists.
Qed.

Lemma for_each_completes {A S} (body : S → A → M S) xs s :
  (∀ s x, x ∈ xs → ∃ s', result (body s x) = Normal s') →
  ∃ s', result (for_each body xs s) = Normal s'.
Proof.
  revert s. induction xs as [|x xs IH]; intros s Hbody; cbn [for_each].
  - by eexists.
  - destruct (Hbody s x) as [s1 Hs1]; [by left|].
    rewrite (bind_Normal _ _ s1 Hs1). cbn [result].
    apply IH. intros s2 y Hy. apply Hbody. by right.
Qed.

Lemma walk_completes w dwarf_info :
  Forall (well_formed_die w) (walked dwarf_info) →
  ∃ c, result (for_each (process_cu w dwarf_info) (iter_CUs dwarf_info)
                 counters0) = Normal c.
Proof.
  unfold walked. intros Hwf. apply for_each_completes.
  intros c cu Hcu. unfold process_cu. apply for_each_completes.
  intros c' die Hdie. apply process_die_completes.
  rewrite Forall_forall in Hwf. apply Hwf.
  apply list_elem_of_In, in_flat_map. exists cu.
  split; by apply list_elem_of_In.
Qed.

(** C5: the summary reports exactly the number [N] of compilation units
    and the number [M] of DIEs tagged "DW_TAG_subprogram" in their trees:
    whenever the walk runs to its end, the last four lines printed are the
    summary header, [N], [M] and the with-PC count, after lines of the walk
    only; when an exception escapes the walk no summary is printed at all.
    The walk does run to its end when every DIE is well formed. *)
Theorem summary_counts w dwarf_info :
  let N := length (iter_CUs dwarf_info) in
  let M := total_subprograms dwarf_info in
  match result (dwarf_summary w dwarf_info) with
  | Normal c =>
      cu_count c = N ∧ subprog_count c = M
      ∧ ∃ body,
          Forall is_die_line body
          ∧ output (dwarf_summary w dwarf_info)
            = (body ++ [PSummaryHeader; PCuCount N; PTotalSubprograms M;
                        PWithPc (subprog_with_pc c)])%list
  | Raise e => Forall is_die_line (output (dwarf_summary w dwarf_info))
  end
  ∧ (Forall (well_formed_die w) (walked dwarf_info) →
     ∃ c, result (dwarf_summary w dwarf_info) = Normal c).
Proof.
  intros N M. unfold dwarf_summary.
  pose proof (cus_lines w dwarf_info (iter_CUs dwarf_info) counters0) as Hlines.
  pose proof (cus_counts w dwarf_info (iter_CUs dwarf_info) counters0) as Hcounts.
  split.
  - destruct (result (for_each _ _ _)) as [c|e] eqn:Hwalk.
    + rewrite (bind_Normal _ _ c Hwalk). cbn [result output].
      destruct (Hcounts c eq_refl) as [Hcu Hsub]. simpl in Hcu, Hsub.
      split; [done|]. split; [done|].
      eexists. split; [exact Hlines|].
      simpl. by rewrite Hcu, Hsub.
    + rewrite (bind_Raise _ _ e Hwalk). by cbn [result output].
  - intros [c Hwalk]%walk_completes.
    rewrite (bind_Normal _ _ c Hwalk). by eexists.
Qed.

(** Every DIE of the sample is well formed. *)
Lemma sample_well_formed :
  Forall (well_formed_die Sample.world) (walked Sample.dwarf_info).
Proof.
  apply Forall_forall. intros die Hdie.
  vm_compute in Hdie.
  repeat (apply elem_of_cons in Hdie as [->|Hdie]);
    [..|by apply elem_of_nil in Hdie].
  all: split; [eexists; vm_compute; reflexivity|].
  all: intros low_attr highpc_attr Hranges Hlow Hhigh.
  all: vm_compute in Hranges, Hlow, Hhigh; simplify_eq.
  all: do 3 eexists; vm_compute; done.
Qed.

(** The sample: two compilation units and six subprograms; the walk runs
    to its end and the summary says so. *)
Lemma summary_counts_witness :
  length (iter_CUs Sample.dwarf_info) = 2
  ∧ total_subprograms Sample.dwarf_info = 6
  ∧ ∃ c, result (dwarf_summary Sample.world Sample.dwarf_info) = Normal c.
Proof.
  split; [reflexivity|]. split; [reflexivity|].
  exact (proj2 (summary_counts Sample.world Sample.dwarf_info)
           sample_well_formed).
Defined.

(** ** The walk is a depth-first pre-order of the subtree *)

Lemma lex_lt_app r p q : lex_lt p q → lex_lt (r ++ p) (r ++ q).
Proof. induction r as [|k r IH]; simpl; auto. Qed.

Lemma before_lex_lt p q : before p q ↔ lex_lt p q.
Proof.
  split.
  - intros [p' s Hs|r i j p' q' Hij].
    + rewrite <- (app_nil_r p') at 1. apply lex_lt_app. by destruct s.
    + apply lex_lt_app. simpl. by left.
  - revert q. induction p as [|i p IH]; intros [|j q]; simpl; try done.
    + intros _. by apply (before_below [] (j :: q)).
    + intros [Hij|[-> Hpq]].
      * by apply (before_sibling [] i j p q).
      * destruct (IH q Hpq) as [p' s Hs|r i' j' p' q' Hij].
        -- by apply (before_below (j :: p') s).
        -- by apply (before_sibling (j :: r) i' j' p' q').
Qed.

Lemma lex_lt_irrefl p : ¬ lex_lt p p.
Proof.
  induction p as [|i p IH]; simpl; [tauto|].
  intros [?|[_ ?]]; [lia|done].
Qed.

Lemma lex_lt_asym p q : lex_lt p q → lex_lt q p → False.
Proof.
  revert q. induction p as [|i p IH]; intros [|j q]; simpl; try done.
  intros [?|[-> Hpq]] [?|[? Hqp]]; try lia. eauto.
Qed.

Lemma children_positions_elem i cs p :
  p ∈ children_positions positions i cs ↔
  ∃ k child p',
    cs !! k = Some child ∧ p = (i + k) :: p' ∧ p' ∈ positions child.
Proof.
  revert i. induction cs as [|c cs IH]; intros i; cbn [children_positions].
  - split; [by intros ?%elem_of_nil|]. by intros (k & child & p' & ? & _).
  - rewrite elem_of_app, list_elem_of_fmap, IH. split.
    + intros [(p' & -> & Hp')|(k & child & p' & Hk & -> & Hp')].
      * exists 0, c, p'. by rewrite Nat.add_0_r.
      * exists (S k), child, p'. split; [done|]. split; [f_equal; lia|done].
    + intros (k & child & p' & Hk & -> & Hp').
      destruct k as [|k]; simpl in Hk.
      * left. exists p'. simplify_eq. by rewrite Nat.add_0_r.
      * right. exists k, child, p'. split; [done|]. split; [f_equal; lia|done].
Qed.

Lemma positions_sorted die : StronglySorted lex_lt (positions die).
Proof.
  induction die as [t attrs cs IH] using DIE_ind. cbn [positions].
  constructor.
  2:{ apply Forall_forall. intros p (k & child & p' & _ & -> & _)%children_positions_elem.
      done. }
  generalize 0 as i.
  induction IH as [|child cs Hchild _ IHcs]; intros i;
    cbn [children_positions]; [constructor|].
  apply StronglySorted_app_2.
  - intros p q (p' & -> & _)%list_elem_of_fmap
      (k & c & q' & _ & -> & _)%children_positions_elem.
    simpl. left. lia.
  - apply (StronglySorted_fmap (cons i) lex_lt lex_lt); [|done].
    intros p q Hpq. simpl. by right.
  - apply IHcs.
Qed.

Lemma positions_valid die p : p ∈ positions die ↔ is_Some (die_at die p).
Proof.
  revert p. induction die as [t attrs cs IH] using DIE_ind. intros p.
  cbn [positions]. rewrite elem_of_cons, children_positions_elem.
  rewrite Forall_forall in IH.
  destruct p as [|k p']; simpl.
  - split; [by eexists|by left].
  - split.
    + intros [?|(k' & child & p'' & Hk & [= -> ->] & Hp)]; [done|].
      rewrite Hk. apply IH; [|done]. by eapply list_elem_of_lookup_2.
    + destruct (cs !! k) as [child|] eqn:Hk; [|by intros [? ?]].
      intros Hsome. right. exists k, child, p'.
      split; [done|]. split; [done|].
      apply IH; [|done]. by eapply list_elem_of_lookup_2.
Qed.

Lemma sorted_lookup_lt {A} (R : relation A) (l : list A) i j x y :
  StronglySorted R l → l !! i = Some x → l !! j = Some y → i < j → R x y.
Proof.
  intros Hsorted. revert i j.
  induction Hsorted as [|z l _ IH Hall]; intros i j Hi Hj Hij; [done|].
  destruct j as [|j]; [lia|]. simpl in Hj.
  destruct i as [|i]; simpl in Hi.
  - simplify_eq. rewrite Forall_forall in Hall.
    apply Hall. by eapply list_elem_of_lookup_2.
  - apply (IH i j); [done..|lia].
Qed.

Lemma children_walk_positions t attrs pre suf :
  Forall (λ die, Some <$> iter_die die = die_at die <$> positions die) suf →
  Some <$> flat_map iter_die suf
  = die_at (mkDIE t attrs (pre ++ suf))
      <$> children_positions positions (length pre) suf.
Proof.
  intros Hsuf. revert pre.
  induction Hsuf as [|child suf Hchild _ IH]; intros pre; [done|].
  cbn [flat_map children_positions]. rewrite !fmap_app. f_equal.
  - rewrite Hchild, <- list_fmap_compose. apply list_fmap_ext.
    intros _ p _. simpl. by rewrite list_lookup_middle.
  - specialize (IH (pre ++ [child])).
    rewrite <- app_assoc, length_app, Nat.add_1_r in IH. apply IH.
Qed.

Lemma iter_die_positions die :
  Some <$> iter_die die = die_at die <$> positions die.
Proof.
  induction die as [t attrs cs IH] using DIE_ind.
  cbn [iter_die positions]. rewrite !fmap_cons. f_equal.
  apply (children_walk_positions t attrs [] cs IH).
Qed.

(** C8: [iter_die] yields exactly the DIEs of the subtree of its argument,
    each once, in depth-first pre-order.  The yields are the DIEs at the
    positions [positions root], in that order; these are exactly the
    positions of the tree, none twice; and whenever one position is before
    another (it is an ancestor of the other, or it lies in the subtree of an
    earlier child of a common ancestor) it is yielded earlier. *)
Theorem iter_die_preorder root :
  Some <$> iter_die root = die_at root <$> positions root
  ∧ (∀ p, p ∈ positions root ↔ is_Some (die_at root p))
  ∧ NoDup (positions root)
  ∧ (∀ i j p q,
       positions root !! i = Some p → positions root !! j = Some q →
       before p q → i < j).
Proof.
  pose proof (positions_sorted root) as Hsorted.
  assert (∀ i j p q,
            positions root !! i = Some p → positions root !! j = Some q →
            before p q → i < j) as Horder.
  { intros i j p q Hi Hj Hpq%before_lex_lt.
    destruct (Nat.lt_trichotomy i j) as [?|[->|Hji]]; [done| |].
    - simplify_eq. by apply lex_lt_irrefl in Hpq.
    - destruct (lex_lt_asym p q Hpq).
      by apply (sorted_lookup_lt lex_lt (positions root) j i). }
  split; [apply iter_die_positions|].
  split; [intros p; apply positions_valid|].
  split; [|done].
  apply NoDup_alt. intros i j p Hi Hj.
  destruct (Nat.lt_trichotomy i j) as [Hij|[->|Hji]]; [|done|].
  - destruct (lex_lt_irrefl p).
    by apply (sorted_lookup_lt lex_lt (positions root) i j).
  - destruct (lex_lt_irrefl p).
    by apply (sorted_lookup_lt lex_lt (positions root) j i).
Qed.

(** In the first compilation unit of the sample the block nested in [main]
    (position [0; 1]) is yielded before [split] (position [1]). *)
Lemma iter_die_preorder_witness : 3 < 5.
Proof.
  refine (proj2 (proj2 (proj2 (iter_die_preorder (get_top_DIE Sample.cu0))))
            3 5 [0; 1] [1] _ _ _).
  - reflexivity.
  - reflexivity.
  - apply (before_sibling [] 0 1 [1] []). lia.
Defined.

(** The first compilation unit of the sample: the walk and its positions. *)
Example iter_die_sample :
  positions (get_top_DIE Sample.cu0)
  = [[]; [0]; [0; 0]; [0; 1]; [0; 1; 0]; [1]; [2]; [3]]
  ∧ tag <$> iter_die (get_top_DIE Sample.cu0)
    = ["DW_TAG_compile_unit"; "DW_TAG_subprogram"; "DW_TAG_variable";
       "DW_TAG_lexical_block"; "DW_TAG_subprogram"; "DW_TAG_subprogram";
       "DW_TAG_subprogram"; "DW_TAG_subprogram"].
Proof. split; reflexivity. Qed.

(** * Further properties of the script *)

(** ** The command line and the exit status *)

(** X1: called without a binary path, [main] prints the usage line and
    exits with status 1; no file is opened and nothing else is printed. *)
Theorem usage_exit w :
  length (argv w) < 2 →
  main w = Run [PUsage] (Raise (SystemExit 1))
  ∧ render PUsage = "Usage: python diagnose_dwarf.py <binary>"
  ∧ exit_status (main w) = 1%Z.
Proof.
  intros Hlen.
  assert (main w = Run [PUsage] (Raise (SystemExit 1))) as ->; [|done].
  unfold main. by rewrite bool_decide_eq_true_2.
Qed.

Lemma usage_exit_witness :
  main (Sample.world_of ["diagnose_dwarf.py"] (Returns Sample.elf))
  = Run [PUsage] (Raise (SystemExit 1)).
Proof.
  refine (proj1 (usage_exit
    (Sample.world_of ["diagnose_dwarf.py"] (Returns Sample.elf)) _)).
  vm_compute. lia.
Defined.

Lemma no_exit_process_die w dwarf_info c die :
  no_exit (process_die w dwarf_info c die).
Proof.
  unfold process_die. destruct (String.eqb _ _); [|apply no_exit_mret].
  apply no_exit_bind.
  { unfold get_func_name, bytes_decode_utf8.
    repeat case_match; by intros code. }
  intros func_name.
  destruct (attributes die !! "DW_AT_ranges") as [ranges_attr|].
  { unfold ranges_branch, describe_first_range, print_if_has.
    repeat no_exit_step. repeat case_match; repeat no_exit_step. }
  destruct (attributes die !! "DW_AT_low_pc") as [low_attr|];
    [|repeat no_exit_step].
  unfold low_high_branch, resolve_high_pc, report_low_high, py_add, py_hex.
  repeat case_match; repeat no_exit_step;
    repeat case_match; repeat no_exit_step; by intros code.
Qed.

Lemma no_exit_dwarf_summary w dwarf_info : no_exit (dwarf_summary w dwarf_info).
Proof.
  unfold dwarf_summary, process_cu.
  repeat first [ apply no_exit_process_die | no_exit_step ].
Qed.

(** How [main] ends once the binary is open and has debug information. *)
Lemma main_result_with_dwarf w binary_path elf :
  argv w !! 1 = Some binary_path →
  open_elf w binary_path = Returns elf →
  has_dwarf_info elf = true →
  result (main w)
  = match result (dwarf_summary w (get_dwarf_info elf)) with
    | Normal _ => Normal tt
    | Raise e => Raise e
    end.
Proof.
  intros Harg Hopen Hdwarf.
  rewrite (main_with_dwarf _ _ _ Harg Hopen Hdwarf). rewrite !emit_bind.
  cbn [result].
  destruct (result (dwarf_summary w (get_dwarf_info elf))) as [c|e] eqn:Hsum.
  - destruct (guarded_result _ _ _ _ (tygr_phase_guarded w binary_path))
      as [Htygr _].
    destruct (guarded_result _ _ _ _ (symexec_phase_guarded w binary_path))
      as [Hsym _].
    rewrite (bind_Normal _ _ c Hsum), (bind_Normal _ _ tt Htygr).
    by cbn [result].
  - by rewrite (bind_Raise _ _ e Hsum).
Qed.

(** X2: the exit status is 0 or 1, and it is 0 exactly when a path was
    given, the binary could be opened, it has DWARF information and the
    DWARF summary ran to its end: nothing that happens in the cross-check
    or in the symbolic-execution test changes the exit status. *)
Theorem main_exit_status w :
  (exit_status (main w) = 0 ∨ exit_status (main w) = 1)%Z
  ∧ (exit_status (main w) = 0%Z ↔
     ∃ binary_path elf,
       argv w !! 1 = Some binary_path
       ∧ open_elf w binary_path = Returns elf
       ∧ has_dwarf_info elf = true
       ∧ completes (dwarf_summary w (get_dwarf_info elf))).
Proof.
  destruct (decide (length (argv w) < 2)) as [Hlen|Hlen].
  { assert (main w = Run [PUsage] (Raise (SystemExit 1))) as Hmain.
    { unfold main. by rewrite bool_decide_eq_true_2. }
    rewrite Hmain. split; [by right|]. split; [done|].
    intros (binary_path & _ & Harg%lookup_lt_Some & _). lia. }
  destruct (lookup_lt_is_Some_2 (argv w) 1) as [binary_path Harg]; [lia|].
  destruct (argv_binary_path w binary_path Harg) as [Hlenb Hpath].
  destruct (open_elf w binary_path) as [elf|e] eqn:Hopen.
  2:{ assert (main w = Run [PAnalyzing binary_path;
                            PElftoolsVersion (elftools_version w)]
                         (Raise (Exception e))) as Hmain.
      { unfold main. by rewrite Hlenb, Hpath, Hopen. }
      rewrite Hmain. split; [by right|]. split; [done|].
      intros (p & elf & Hp & Hopen' & _). congruence. }
  destruct (has_dwarf_info elf) eqn:Hdwarf.
  2:{ assert (main w = Run [PAnalyzing binary_path;
                            PElftoolsVersion (elftools_version w); PNoDwarf]
                         (Raise (SystemExit 1))) as Hmain.
      { unfold main. rewrite Hlenb, Hpath, Hopen. simpl call.
        by rewrite !mret_bind, Hdwarf. }
      rewrite Hmain. split; [by right|]. split; [done|].
      intros (p & elf' & Hp & Hopen' & Hdwarf' & _). congruence. }
  pose proof (main_result_with_dwarf w binary_path elf Harg Hopen Hdwarf)
    as Hres.
  pose proof (no_exit_dwarf_summary w (get_dwarf_info elf)) as Hnoexit.
  unfold exit_status. rewrite Hres.
  destruct (result (dwarf_summary w (get_dwarf_info elf)))
    as [c|[e|code]] eqn:Hsum.
  - split; [by left|]. split; [|done]. intros _.
    exists binary_path, elf. repeat split; try done. by exists c.
  - split; [by right|]. split; [done|].
    intros (p & elf' & Hp & Hopen' & _ & [c Hc]). congruence.
  - by destruct (Hnoexit code).
Qed.

(** ** The name of a subprogram *)

(** X3: the name of a DIE is [None] exactly when it has no [DW_AT_name];
    a name that resolves is never a [bytes] object (so no line shows a
    [bytes] repr as a name), valid UTF-8 bytes resolve to the [str] they
    encode, and resolution raises exactly when the attribute holds bytes
    that are not valid UTF-8. *)
Theorem func_name_resolution die :
  (get_func_name die = mret None ↔ attributes die !! "DW_AT_name" = None)
  ∧ (∀ v, get_func_name die = mret (Some v) → ∀ b, v ≠ VBytes b)
  ∧ (∀ a b, attributes die !! "DW_AT_name" = Some a → value a = VBytes b →
       utf8_valid b = true → get_func_name die = mret (Some (VStr b)))
  ∧ ((∃ e, result (get_func_name die) = Raise e) ↔
     ∃ a b, attributes die !! "DW_AT_name" = Some a
            ∧ value a = VBytes b ∧ utf8_valid b = false).
Proof.
  unfold get_func_name, bytes_decode_utf8, raise, mret, M_ret.
  destruct (attributes die !! "DW_AT_name") as [a|].
  2:{ split; [done|]. split; [intros v [=]|]. split; [intros a b [=]|].
      split; [intros [e [=]]|intros (a & b & [=] & _)]. }
  split; [split; [|intros [=]]|].
  { destruct (value a) as [n|b|s]; [intros [=]| |intros [=]].
    destruct (utf8_valid b); intros [=]. }
  split.
  { intros v Hv b ->.
    destruct (value a) as [n|b'|s]; [by injection Hv| |by injection Hv].
    destruct (utf8_valid b'); by injection Hv. }
  split.
  { intros a' b [= <-] -> ->. done. }
  split.
  - intros [e He]. destruct (value a) as [n|b|s] eqn:Hvalue;
      [discriminate He| |discriminate He].
    destruct (utf8_valid b) eqn:Hvalid; [discriminate He|].
    by exists a, b.
  - intros (a' & b & [= <-] & -> & ->). by eexists.
Qed.

(** The name of [main] in the sample, stored as bytes. *)
Lemma func_name_resolution_witness :
  get_func_name Sample.die_main = mret (Some (VStr "main")).
Proof.
  refine (proj1 (proj2 (proj2 (func_name_resolution Sample.die_main)))
            (Sample.attr "DW_FORM_strp" (VBytes "main")) "main" _ _ _);
    reflexivity.
Defined.

(** ** Method 2, the reported line *)

(** X4: a subprogram without [DW_AT_ranges] whose [DW_AT_low_pc] and
    [DW_AT_high_pc] hold integers, of class "address" or "constant", and
    whose high bound (the value, or low + value) is not zero, prints its
    header and one line with both bounds in hexadecimal, and is counted in
    [subprog_with_pc]. *)
Theorem low_high_reported w dwarf_info c die func_name low_attr highpc_attr
    highpc_class (low offset high : Z) :
  tag die = "DW_TAG_subprogram" →
  get_func_name die = mret func_name →
  attributes die !! "DW_AT_ranges" = None →
  attributes die !! "DW_AT_low_pc" = Some low_attr →
  attributes die !! "DW_AT_high_pc" = Some highpc_attr →
  value low_attr = VInt low →
  value highpc_attr = VInt offset →
  describe_form_class w (form highpc_attr) = Returns highpc_class →
  (highpc_class = "address" ∧ high = offset
   ∨ highpc_class = "constant" ∧ high = (low + offset)%Z) →
  high ≠ 0%Z →
  process_die w dwarf_info c die
  = Run [PSubprogram func_name;
         PLowHigh (HexString.of_Z low) (HexString.of_Z high)]
      (Normal (incr_with_pc (incr_subprog c)))
  ∧ render (PLowHigh (HexString.of_Z low) (HexString.of_Z high))
    = ("    low_pc=" ++ HexString.of_Z low
       ++ ", high_pc=" ++ HexString.of_Z high)%string.
Proof.
  intros Htag Hname Hranges Hlow Hhigh Hlo Hoff Hclass Hcases Hnz.
  split; [|done].
  rewrite process_die_subprogram by done.
  rewrite Hname, mret_bind, Hranges, Hlow.
  unfold low_high_branch. rewrite Hhigh.
  unfold resolve_high_pc. rewrite Hclass, Hlo, Hoff. simpl call.
  rewrite mret_bind.
  assert (negb (high =? 0)%Z = true) as Htruthy.
  { apply negb_true_iff, Z.eqb_neq. done. }
  destruct Hcases as [[-> ->]|[-> ->]].
  - rewrite String.eqb_refl, mret_bind.
    unfold report_low_high. cbn [py_truthy]. by rewrite Htruthy.
  - change (String.eqb "constant" "address") with false. cbv iota.
    rewrite String.eqb_refl. cbn [py_add]. rewrite !mret_bind.
    unfold report_low_high. cbn [py_truthy]. by rewrite Htruthy.
Qed.

(** The subprogram [main] of the sample. *)
Lemma low_high_reported_witness :
  process_die Sample.world Sample.dwarf_info counters0 Sample.die_main
  = Run [PSubprogram (Some (VStr "main")); PLowHigh "0x10908" "0x10948"]
      (Normal (incr_with_pc (incr_subprog counters0))).
Proof.
  refine (proj1 (low_high_reported Sample.world Sample.dwarf_info counters0
    Sample.die_main (Some (VStr "main"))
    (Sample.attr "DW_FORM_addr" (VInt 0x10908))
    (Sample.attr "DW_FORM_data4" (VInt 0x40)) "constant"
    0x10908 0x40 0x10948 _ _ _ _ _ _ _ _ _ _));
    try (vm_compute; reflexivity).
  - right. split; reflexivity.
  - discriminate.
Defined.

(** ** Method 1 comes first *)

(** X5: a DIE that has [DW_AT_ranges] is handled by method 1 alone: its
    [DW_AT_low_pc] and [DW_AT_high_pc] attributes, its children and the
    form-class table play no part in what it prints or counts. *)
Theorem ranges_take_precedence w w' dwarf_info c t attrs attrs' cs cs' :
  is_Some (attrs !! "DW_AT_ranges") →
  (∀ k, k ≠ "DW_AT_low_pc" → k ≠ "DW_AT_high_pc" → attrs' !! k = attrs !! k) →
  process_die w' dwarf_info c (mkDIE t attrs' cs')
  = process_die w dwarf_info c (mkDIE t attrs cs).
Proof.
  intros [ranges_attr Hranges] Hsame.
  unfold process_die, get_func_name. cbn [tag attributes].
  rewrite (Hsame "DW_AT_name"), (Hsame "DW_AT_ranges") by discriminate.
  by rewrite Hranges.
Qed.

(** [split] of the sample, given a low PC of an unknown form as well. *)
Lemma ranges_take_precedence_witness :
  process_die Sample.world Sample.dwarf_info counters0
    (mkDIE "DW_TAG_subprogram"
       (<["DW_AT_low_pc" := Sample.attr "DW_FORM_addrx" (VInt 3)]>
          (attributes Sample.die_split)) [])
  = process_die Sample.world Sample.dwarf_info counters0 Sample.die_split.
Proof.
  refine (ranges_take_precedence Sample.world Sample.world Sample.dwarf_info
    counters0 "DW_TAG_subprogram" (attributes Sample.die_split) _ [] [] _ _).
  - vm_compute. eauto.
  - intros k Hlow _. by rewrite lookup_insert_ne.
Defined.

(** ** Only subprograms matter *)

(** X6: DIEs of any other tag print nothing and change no counter: the
    walk over a list of DIEs is the walk over its subprogram DIEs. *)
Theorem walk_ignores_other_dies w dwarf_info dies c :
  for_each (process_die w dwarf_info) dies c
  = for_each (process_die w dwarf_info) (List.filter is_subprogram dies) c.
Proof.
  revert c. induction dies as [|die dies IH]; intros c; [done|].
  cbn [List.filter for_each].
  destruct (is_subprogram die) eqn:Hsub.
  - cbn [for_each]. unfold mbind, M_bind.
    destruct (result (process_die w dwarf_info c die)); [|done].
    by rewrite IH.
  - by rewrite (process_die_other _ _ _ _ Hsub), mret_bind.
Qed.

(** ** The walk, DIE by DIE *)

Lemma add_counts_zero c : add_counts c counters0 = c.
Proof. destruct c. unfold add_counts. simpl. f_equal; lia. Qed.

Lemma add_counts_subprog c :
  add_counts c (incr_subprog counters0) = incr_subprog c.
Proof. destruct c. unfold add_counts, incr_subprog. simpl. f_equal; lia. Qed.

Lemma add_counts_with_pc c :
  add_counts c (incr_with_pc (incr_subprog counters0))
  = incr_with_pc (incr_subprog c).
Proof.
  destruct c. unfold add_counts, incr_with_pc, incr_subprog. simpl.
  f_equal; lia.
Qed.

(** The only thing a DIE does with the counters is add to them: its run
    is its run from zero, the counts added afterwards. *)
Lemma process_die_additive w dwarf_info c die :
  process_die w dwarf_info c die
  = (d ← die_run w dwarf_info die; mret (add_counts c d)).
Proof.
  unfold die_run, process_die.
  destruct (String.eqb _ _).
  2:{ by rewrite mret_bind, add_counts_zero. }
  destruct (get_func_name die) as [out [func_name|e]] eqn:Hname.
  all: pose proof (get_func_name_silent die) as Hout;
    rewrite Hname in Hout; simpl in Hout; subst out.
  2: done.
  rewrite !(mret_bind func_name).
  rewrite <- (add_counts_subprog c).
  destruct (attributes die !! "DW_AT_ranges") as [ranges_attr|].
  { destruct (get_range_list_at_offset dwarf_info (value ranges_attr))
      as [ranges|e] eqn:Hres.
    - rewrite !(ranges_branch_resolved _ _ _ _ _ Hres).
      destruct ranges as [|first_range rest]; [done|].
      rewrite (add_counts_subprog c), <- add_counts_with_pc.
      unfold describe_first_range, print_if_has.
      by repeat case_match.
    - by rewrite !(ranges_branch_failed _ _ _ _ _ Hres). }
  destruct (attributes die !! "DW_AT_low_pc") as [low_attr|]; [|done].
  unfold low_high_branch.
  destruct (attributes die !! "DW_AT_high_pc") as [highpc_attr|]; [|done].
  unfold resolve_high_pc.
  destruct (describe_form_class w (form highpc_attr)) as [cls|e]; [|done].
  simpl call. rewrite !mret_bind.
  unfold report_low_high, py_add, py_hex.
  assert (incr_with_pc (add_counts c (incr_subprog counters0))
          = add_counts c (incr_with_pc (incr_subprog counters0))) as ->.
  { by rewrite add_counts_subprog, add_counts_with_pc. }
  destruct (String.eqb cls "address"), (String.eqb cls "constant"),
    (value low_attr), (value highpc_attr);
    cbn [mbind M_bind mret M_ret emit raise result output py_truthy app];
    try done.
  all: repeat (case_match;
         cbn [mbind M_bind mret M_ret emit raise result output app]);
    done.
Qed.

Ltac die_facts :=
  intros [= <-]; cbn; repeat split; first [done | lia].

(** What one DIE prints and counts, when its processing completes. *)
Lemma die_run_facts w dwarf_info die d :
  result (die_run w dwarf_info die) = Normal d →
  cu_count d = 0
  ∧ subprog_count d = (if is_subprogram die then 1 else 0)
  ∧ subprog_with_pc d = pc_lines (output (die_run w dwarf_info die))
  ∧ (subprog_with_pc d ≤ subprog_count d)%nat
  ∧ no_pc_info_lines (output (die_run w dwarf_info die))
    = (if lacks_pc_attributes die then 1 else 0).
Proof.
  unfold die_run, process_die, lacks_pc_attributes, is_subprogram.
  destruct (String.eqb _ _); [|die_facts].
  destruct (get_func_name die) as [out [func_name|e]] eqn:Hname.
  all: pose proof (get_func_name_silent die) as Hout;
    rewrite Hname in Hout; simpl in Hout; subst out.
  2: done.
  rewrite (mret_bind func_name).
  destruct (attributes die !! "DW_AT_ranges") as [ranges_attr|].
  { destruct (get_range_list_at_offset dwarf_info (value ranges_attr))
      as [ranges|e] eqn:Hres.
    - rewrite (ranges_branch_resolved _ _ _ _ _ Hres).
      destruct ranges as [|first_range rest]; [die_facts|].
      unfold describe_first_range, print_if_has.
      repeat case_match; die_facts.
    - rewrite (ranges_branch_failed _ _ _ _ _ Hres). die_facts. }
  destruct (attributes die !! "DW_AT_low_pc") as [low_attr|];
    [|die_facts].
  unfold low_high_branch.
  destruct (attributes die !! "DW_AT_high_pc") as [highpc_attr|];
    [|die_facts].
  unfold resolve_high_pc.
  destruct (describe_form_class w (form highpc_attr)) as [cls|e]; [|done].
  simpl call. rewrite mret_bind.
  unfold report_low_high, py_add, py_hex.
  destruct (String.eqb cls "address"), (String.eqb cls "constant"),
    (value low_attr), (value highpc_attr);
    cbn [mbind M_bind mret M_ret emit raise result output py_truthy app];
    try done.
  all: repeat (case_match;
         cbn [mbind M_bind mret M_ret emit raise result output app]);
    try done.
  all: die_facts.
Qed.

Lemma process_die_result w dwarf_info c die :
  result (process_die w dwarf_info c die)
  = match result (die_run w dwarf_info die) with
    | Normal d => Normal (add_counts c d)
    | Raise e => Raise e
    end
  ∧ output (process_die w dwarf_info c die) = output (die_run w dwarf_info die).
Proof.
  rewrite process_die_additive. unfold mbind, M_bind.
  destruct (result (die_run w dwarf_info die)); simpl; [|done].
  by rewrite app_nil_r.
Qed.

(** *** The flat walk over a list of DIEs *)

Lemma flat_walk_completes w dwarf_info dies c :
  Forall (λ die, completes (die_run w dwarf_info die)) dies →
  ∃ c',
    for_each (process_die w dwarf_info) dies c
    = Run (concat ((λ die, output (die_run w dwarf_info die)) <$> dies))
        (Normal c').
Proof.
  intros Hall. revert c.
  induction Hall as [|die dies [d Hd] _ IH]; intros c; [by eexists|].
  cbn [for_each fmap list_fmap concat].
  destruct (process_die_result w dwarf_info c die) as [Hres Hout].
  rewrite Hd in Hres.
  destruct (IH (add_counts c d)) as [c' Hc'].
  exists c'. rewrite (bind_Normal _ _ _ Hres), Hc', Hout. done.
Qed.

Lemma flat_walk_aborts w dwarf_info pre die post e c :
  Forall (λ die, completes (die_run w dwarf_info die)) pre →
  result (die_run w dwarf_info die) = Raise e →
  for_each (process_die w dwarf_info) (pre ++ die :: post) c
  = Run (concat ((λ die, output (die_run w dwarf_info die)) <$> pre)
         ++ output (die_run w dwarf_info die))
      (Raise e).
Proof.
  intros Hpre Hdie.
  destruct (flat_walk_completes w dwarf_info pre c Hpre) as [c' Hc'].
  rewrite for_each_app, Hc'.
  rewrite (bind_Normal _ _ c') by done. cbn [for_each output result].
  destruct (process_die_result w dwarf_info c' die) as [Hres Hout].
  rewrite Hdie in Hres. by rewrite (bind_Raise _ _ _ Hres), Hout.
Qed.

Lemma flat_walk_only_if_complete w dwarf_info dies c c' :
  result (for_each (process_die w dwarf_info) dies c) = Normal c' →
  Forall (λ die, completes (die_run w dwarf_info die)) dies.
Proof.
  revert c. induction dies as [|die dies IH]; intros c; [by constructor|].
  cbn [for_each]. intros (c1 & Hc1 & Hrest)%bind_result_Normal.
  constructor; [|apply (IH c1); exact Hrest].
  destruct (process_die_result w dwarf_info c die) as [Hres _].
  rewrite Hc1 in Hres. unfold completes.
  destruct (result (die_run w dwarf_info die)) as [d|]; [by exists d|done].
Qed.

(** *** From the nested loops to the flat walk *)

Lemma same_run_bind (m1 m2 : M counters) (k1 k2 : counters → M counters) :
  same_run m1 m2 → (∀ a b, same_run (k1 a) (k2 b)) →
  same_run (m1 ≫= k1) (m2 ≫= k2).
Proof.
  intros [Hout Hres] Hk. unfold same_run, mbind, M_bind in *.
  destruct (result m1) as [a|e1], (result m2) as [b|e2]; try done.
  destruct (Hk a b) as [Hout' Hres']. cbn [output result].
  by rewrite Hout, Hout'.
Qed.

Lemma same_run_process_die w dwarf_info c1 c2 die :
  same_run (process_die w dwarf_info c1 die) (process_die w dwarf_info c2 die).
Proof.
  destruct (process_die_result w dwarf_info c1 die) as [Hres1 Hout1].
  destruct (process_die_result w dwarf_info c2 die) as [Hres2 Hout2].
  unfold same_run. rewrite Hres1, Hres2, Hout1, Hout2.
  by destruct (result (die_run w dwarf_info die)).
Qed.

Lemma same_run_flat_walk w dwarf_info dies c1 c2 :
  same_run (for_each (process_die w dwarf_info) dies c1)
    (for_each (process_die w dwarf_info) dies c2).
Proof.
  revert c1 c2. induction dies as [|die dies IH]; intros c1 c2; [done|].
  cbn [for_each]. apply same_run_bind; [apply same_run_process_die|].
  intros a b. apply IH.
Qed.

Lemma same_run_nested_walk w dwarf_info cus c1 c2 :
  same_run (for_each (process_cu w dwarf_info) cus c1)
    (for_each (process_die w dwarf_info)
       (flat_map (λ cu, iter_die (get_top_DIE cu)) cus) c2).
Proof.
  revert c1 c2. induction cus as [|cu cus IH]; intros c1 c2; [done|].
  cbn [for_each flat_map]. rewrite for_each_app.
  apply same_run_bind; [apply same_run_flat_walk|].
  intros a b. apply IH.
Qed.

(** The loops of the summary print what the flat walk over all the DIEs
    prints, and end as it ends. *)
Lemma same_run_walked w dwarf_info :
  same_run
    (for_each (process_cu w dwarf_info) (iter_CUs dwarf_info) counters0)
    (for_each (process_die w dwarf_info) (walked dwarf_info) counters0).
Proof. apply same_run_nested_walk. Qed.


(** The summary when the walk completes: the lines of the DIEs, one DIE
    after the other, and the four summary lines. *)
Lemma dwarf_summary_normal_form w dwarf_info c :
  result (dwarf_summary w dwarf_info) = Normal c →
  Forall (λ die, completes (die_run w dwarf_info die)) (walked dwarf_info)
  ∧ dwarf_summary w dwarf_info
    = Run (concat ((λ die, output (die_run w dwarf_info die))
                     <$> walked dwarf_info)
           ++ [PSummaryHeader; PCuCount (cu_count c);
               PTotalSubprograms (subprog_count c);
               PWithPc (subprog_with_pc c)])
        (Normal c).
Proof.
  unfold dwarf_summary.
  intros (c1 & Hc1 & Hrest)%bind_result_Normal.
  destruct (same_run_walked w dwarf_info) as [Hout Hres].
  rewrite Hc1 in Hres.
  destruct (result (for_each (process_die w dwarf_info) (walked dwarf_info)
                      counters0)) as [c2|] eqn:Hflat; [|done].
  pose proof (flat_walk_only_if_complete _ _ _ _ _ Hflat) as Hall.
  split; [done|].
  destruct (flat_walk_completes w dwarf_info _ counters0 Hall) as [c3 Hc3].
  rewrite Hc3 in Hout. cbn [output] in Hout.
  rewrite (bind_Normal _ _ c1 Hc1). rewrite Hout.
  cbn in Hrest. injection Hrest as <-. done.
Qed.

(** ** The summary as a whole *)




(** X8: when the walk completes, what the DWARF summary prints is the
    concatenation, in walk order over all compilation units, of what each
    DIE prints on its own, followed by the four summary lines: the report
    of a DIE does not depend on the DIEs around it. *)
Theorem report_is_concatenation w dwarf_info c :
  result (dwarf_summary w dwarf_info) = Normal c →
  output (dwarf_summary w dwarf_info)
  = concat ((λ die, output (die_run w dwarf_info die)) <$> walked dwarf_info)
    ++ [PSummaryHeader; PCuCount (cu_count c);
        PTotalSubprograms (subprog_count c); PWithPc (subprog_with_pc c)].
Proof.
  intros [_ Hsum]%dwarf_summary_normal_form. by rewrite Hsum.
Qed.

Lemma report_is_concatenation_witness :
  output (dwarf_summary Sample.world Sample.dwarf_info)
  = concat ((λ die, output (die_run Sample.world Sample.dwarf_info die))
              <$> walked Sample.dwarf_info)
    ++ [PSummaryHeader; PCuCount 2; PTotalSubprograms 6; PWithPc 2].
Proof.
  refine (report_is_concatenation Sample.world Sample.dwarf_info
    {| cu_count := 2; subprog_count := 6; subprog_with_pc := 2 |} _).
  vm_compute. reflexivity.
Defined.

(** X9: the first DIE of the walk whose processing raises ends the DWARF
    summary there: the lines of the DIEs before it and its own lines are
    printed, nothing after them (no later DIE, no summary), and the
    exception is the run's. *)
Theorem first_failure_ends_walk w dwarf_info pre die post e :
  walked dwarf_info = pre ++ die :: post →
  Forall (λ die, completes (die_run w dwarf_info die)) pre →
  result (die_run w dwarf_info die) = Raise e →
  dwarf_summary w dwarf_info
  = Run (concat ((λ die, output (die_run w dwarf_info die)) <$> pre)
         ++ output (die_run w dwarf_info die))
      (Raise e).
Proof.
  intros Hwalked Hpre Hdie.
  pose proof (flat_walk_aborts w dwarf_info pre die post e counters0 Hpre Hdie)
    as Hflat.
  rewrite <- Hwalked in Hflat.
  destruct (same_run_walked w dwarf_info) as [Hout Hres].
  rewrite Hflat in Hout, Hres. cbn [output result] in Hout, Hres.
  unfold dwarf_summary.
  destruct (result (for_each (process_cu w dwarf_info) _ _)) as [|e'] eqn:Hwalk;
    [done|]. subst e'.
  by rewrite (bind_Raise _ _ e Hwalk), Hout.
Qed.

(** The binary with the undecodable name: the walk ends at that DIE. *)
Lemma first_failure_ends_walk_witness :
  dwarf_summary Sample.world (get_dwarf_info Sample.garbled)
  = Run []
      (Raise (Exception "UnicodeDecodeError: 'utf-8' codec can't decode bytes")).
Proof.
  refine (first_failure_ends_walk Sample.world (get_dwarf_info Sample.garbled)
    [mkDIE "DW_TAG_compile_unit" ∅ [Sample.die_garbled]] Sample.die_garbled []
    _ _ _ _).
  - reflexivity.
  - constructor; [|constructor]. eexists. vm_compute. reflexivity.
  - vm_compute. reflexivity.
Defined.

Lemma for_each_measure {A S} (body : S → A → M S) (μ : S → nat)
    (count : list line → nat) :
  (∀ a b, count (a ++ b) = count a + count b) → count [] = 0 →
  (∀ s x s', result (body s x) = Normal s' →
             μ s' = μ s + count (output (body s x))) →
  ∀ xs s s', result (for_each body xs s) = Normal s' →
             μ s' = μ s + count (output (for_each body xs s)).
Proof.
  intros Happ Hnil Hbody xs.
  induction xs as [|x xs IH]; intros s s'; cbn [for_each].
  - intros [= <-]. simpl. rewrite Hnil. lia.
  - intros Hres.
    destruct (bind_result_Normal _ _ _ Hres) as (s1 & Hs1 & Hrest).
    rewrite (bind_Normal _ _ s1 Hs1). cbn [output].
    rewrite Happ, (IH _ _ Hrest), (Hbody _ _ _ Hs1). lia.
Qed.

Lemma for_each_invariant {A S} (body : S → A → M S) (I : S → Prop) :
  (∀ s x s', I s → result (body s x) = Normal s' → I s') →
  ∀ xs s s', I s → result (for_each body xs s) = Normal s' → I s'.
Proof.
  intros Hbody xs. induction xs as [|x xs IH]; intros s s' Hs; cbn [for_each].
  - by intros [= <-].
  - intros (s1 & Hs1 & Hrest)%bind_result_Normal. eauto.
Qed.

Lemma pc_lines_app a b : pc_lines (a ++ b) = pc_lines a + pc_lines b.
Proof. unfold pc_lines. by rewrite List.filter_app, length_app. Qed.

Lemma process_die_with_pc w dwarf_info c die c' :
  result (process_die w dwarf_info c die) = Normal c' →
  subprog_with_pc c'
  = subprog_with_pc c + pc_lines (output (process_die w dwarf_info c die))
  ∧ ((subprog_with_pc c ≤ subprog_count c)%nat →
     (subprog_with_pc c' ≤ subprog_count c')%nat).
Proof.
  destruct (process_die_result w dwarf_info c die) as [Hres Hout].
  rewrite Hres, Hout.
  destruct (result (die_run w dwarf_info die)) as [d|] eqn:Hd; [|done].
  intros [= <-].
  destruct (die_run_facts w dwarf_info die d Hd) as (_ & _ & Hpc & Hle & _).
  simpl. split; lia.
Qed.

(** X10: when the summary is printed, its with-PC count is the number of
    PC reports printed above it (low/high lines and first-range
    descriptions), and it never exceeds the total subprogram count. *)
Theorem with_pc_count w dwarf_info c :
  result (dwarf_summary w dwarf_info) = Normal c →
  subprog_with_pc c = pc_lines (output (dwarf_summary w dwarf_info))
  ∧ (subprog_with_pc c ≤ subprog_count c)%nat.
Proof.
  unfold dwarf_summary.
  intros (c1 & Hc1 & Hrest)%bind_result_Normal.
  rewrite (bind_Normal _ _ c1 Hc1). cbn in Hrest. injection Hrest as <-.
  cbn [output]. rewrite pc_lines_app.
  split.
  - assert (subprog_with_pc c1
            = subprog_with_pc counters0
              + pc_lines (output (for_each (process_cu w dwarf_info)
                                    (iter_CUs dwarf_info) counters0))) as Hpc.
    { revert Hc1. apply for_each_measure; [apply pc_lines_app|done|].
      intros s cu s' Hs'. unfold process_cu in *.
      change (subprog_with_pc s) with (subprog_with_pc (incr_cu s)).
      revert Hs'. apply for_each_measure; [apply pc_lines_app|done|].
      intros s1 die s1' Hs1'. by apply process_die_with_pc. }
    change (subprog_with_pc counters0) with 0 in Hpc.
    match goal with
    | |- _ = _ + ?summary => change summary with 0
    end.
    lia.
  - revert Hc1.
    apply (for_each_invariant _
             (λ c, (subprog_with_pc c ≤ subprog_count c)%nat));
      [|simpl; lia].
    intros s cu s' Hs. unfold process_cu.
    apply (for_each_invariant _
             (λ c, (subprog_with_pc c ≤ subprog_count c)%nat));
      [|by simpl].
    intros s1 die s1' Hs1 Hs1'. by apply (process_die_with_pc _ _ _ _ _ Hs1').
Qed.

Lemma with_pc_count_witness :
  2 = pc_lines (output (dwarf_summary Sample.world Sample.dwarf_info)).
Proof.
  refine (proj1 (with_pc_count Sample.world Sample.dwarf_info
    {| cu_count := 2; subprog_count := 6; subprog_with_pc := 2 |} _)).
  vm_compute. reflexivity.
Defined.

Lemma no_pc_info_lines_app a b :
  no_pc_info_lines (a ++ b) = no_pc_info_lines a + no_pc_info_lines b.
Proof. unfold no_pc_info_lines. by rewrite List.filter_app, length_app. Qed.

Lemma no_pc_info_lines_walk w dwarf_info dies :
  Forall (λ die, completes (die_run w dwarf_info die)) dies →
  no_pc_info_lines
    (concat ((λ die, output (die_run w dwarf_info die)) <$> dies))
  = length (List.filter lacks_pc_attributes dies).
Proof.
  induction 1 as [|die dies [d Hd] _ IH]; [done|].
  cbn [fmap list_fmap concat List.filter].
  rewrite no_pc_info_lines_app, IH.
  destruct (die_run_facts w dwarf_info die d Hd) as (_ & _ & _ & _ & ->).
  by destruct (lacks_pc_attributes die).
Qed.

(** X11: when the summary is printed, the number of "NO PC INFO" lines
    above it is the number of subprogram DIEs, over all compilation units,
    that have neither [DW_AT_ranges] nor [DW_AT_low_pc]. *)
Theorem no_pc_info_count w dwarf_info c :
  result (dwarf_summary w dwarf_info) = Normal c →
  no_pc_info_lines (output (dwarf_summary w dwarf_info))
  = length (List.filter lacks_pc_attributes (walked dwarf_info)).
Proof.
  intros [Hall Hsum]%dwarf_summary_normal_form.
  rewrite Hsum. cbn [output].
  rewrite no_pc_info_lines_app, (no_pc_info_lines_walk _ _ _ Hall).
  match goal with
  | |- _ + ?summary = _ => change summary with 0
  end.
  lia.
Qed.

Lemma no_pc_info_count_witness :
  no_pc_info_lines (output (dwarf_summary Sample.world Sample.dwarf_info)) = 1.
Proof.
  refine (no_pc_info_count Sample.world Sample.dwarf_info
    {| cu_count := 2; subprog_count := 6; subprog_with_pc := 2 |} _).
  vm_compute. reflexivity.
Defined.

(** ** The cross-check of the project's helpers *)

Lemma for_print_var vars :
  for_ print_var vars
  = Run ((λ v, PVar (var_name v) (var_type v) (func_param v)) <$> vars)
      (Normal tt).
Proof.
  unfold for_. induction vars as [|v vars IH]; [done|].
  cbn [for_each fmap list_fmap].
  change (print_var v)
    with (emit (PVar (var_name v) (var_type v) (func_param v))).
  by rewrite emit_bind, IH.
Qed.

Lemma report_vars_returns w subprog vars_list :
  dwarf_subprogram_to_vars w subprog = Returns vars_list →
  report_vars w subprog
  = Run (PVarsFound (length vars_list)
         :: ((λ v, PVar (var_name v) (var_type v) (func_param v))
               <$> take 5 vars_list)
         ++ (if bool_decide (5 < length vars_list)
             then [PMoreVars (length vars_list - 5)] else []))
      (Normal tt).
Proof.
  intros Hvars. unfold report_vars. rewrite Hvars. simpl call.
  rewrite mret_bind, emit_bind.
  rewrite (bind_Normal (for_ print_var (take 5 vars_list)) _ tt)
    by (by rewrite for_print_var).
  rewrite for_print_var. unfold try_except. cbn [output result].
  case_bool_decide; cbn [output result emit mret M_ret]; [done|].
  by rewrite !app_nil_r.
Qed.

Lemma report_vars_raises w subprog e :
  dwarf_subprogram_to_vars w subprog = Raises e →
  report_vars w subprog = Run [PVarsError e; PTraceback e] (Normal tt).
Proof. intros Hvars. unfold report_vars. by rewrite Hvars. Qed.

(** X12: when the variables of a subprogram are returned, the script
    prints their number, then one line for each of the first five, then,
    only when there are more than five, the line "... and n more" with n
    the number left out: the lines shown and n add up to the number
    found. *)
Theorem vars_listing w subprog vars_list :
  dwarf_subprogram_to_vars w subprog = Returns vars_list →
  let shown := take 5 vars_list in
  report_vars w subprog
  = Run (PVarsFound (length vars_list)
         :: ((λ v, PVar (var_name v) (var_type v) (func_param v)) <$> shown)
         ++ (if bool_decide (5 < length vars_list)
             then [PMoreVars (length vars_list - 5)] else []))
      (Normal tt)
  ∧ (length shown ≤ 5)%nat
  ∧ length shown + (length vars_list - 5) = length vars_list
  ∧ ((length vars_list ≤ 5)%nat → shown = vars_list).
Proof.
  intros Hvars shown. split; [by apply report_vars_returns|].
  subst shown. rewrite length_take.
  split; [lia|]. split; [lia|].
  intros Hle. by apply take_ge.
Qed.

(** The seven variables of [main] in the second sample: five shown, two
    more. *)
Lemma vars_listing_witness :
  report_vars Sample2.world Sample.subprog_main
  = Run (PVarsFound 7
         :: ((λ v, PVar (var_name v) (var_type v) (func_param v))
               <$> take 5 Sample2.seven_vars)
         ++ [PMoreVars 2])
      (Normal tt).
Proof.
  refine (proj1 (vars_listing Sample2.world Sample.subprog_main
                   Sample2.seven_vars _)).
  reflexivity.
Defined.

Lemma report_vars_run w subprog :
  result (report_vars w subprog) = Normal tt
  ∧ function_lines (output (report_vars w subprog)) = [].
Proof.
  destruct (dwarf_subprogram_to_vars w subprog) as [vars_list|e] eqn:Hvars.
  - rewrite (report_vars_returns _ _ _ Hvars). split; [done|].
    cbn [output function_lines omap list_omap].
    unfold function_lines. rewrite omap_app.
    assert (omap (λ l, match l with PFunction n => Some n | _ => None end)
              ((λ v, PVar (var_name v) (var_type v) (func_param v))
                 <$> take 5 vars_list) = []) as ->.
    { induction (take 5 vars_list); [done|]. by cbn. }
    by case_bool_decide.
  - by rewrite (report_vars_raises _ _ _ Hvars).
Qed.

Lemma report_subprogram_with_pc w subprog :
  has_pc_range subprog →
  result (report_subprogram w subprog) = Normal tt
  ∧ function_lines (output (report_subprogram w subprog)) = [func_name subprog].
Proof.
  intros [pc Hpc]. unfold report_subprogram. rewrite Hpc.
  cbn [subscript_pc]. rewrite emit_bind, mret_bind, emit_bind.
  destruct (report_vars_run w subprog) as [Hres Hlines].
  cbn [output result function_lines omap list_omap].
  split; [done|]. unfold function_lines in Hlines. by rewrite Hlines.
Qed.

Lemma report_subprogram_without_pc w subprog :
  low_high_pc subprog = None →
  report_subprogram w subprog
  = Run [PFunction (func_name subprog)]
      (Raise (Exception "'NoneType' object is not subscriptable")).
Proof. intros Hpc. unfold report_subprogram. by rewrite Hpc. Qed.

Lemma function_lines_app a b :
  function_lines (a ++ b) = function_lines a ++ function_lines b.
Proof. apply omap_app. Qed.

Lemma report_subprograms_with_pc w subprog_list :
  Forall has_pc_range subprog_list →
  result (for_ (report_subprogram w) subprog_list) = Normal tt
  ∧ function_lines (output (for_ (report_subprogram w) subprog_list))
    = func_name <$> subprog_list.
Proof.
  unfold for_. induction 1 as [|subprog subprog_list Hpc _ [IHres IHlines]];
    [done|].
  cbn [for_each fmap list_fmap].
  destruct (report_subprogram_with_pc w subprog Hpc) as [Hres Hlines].
  rewrite (bind_Normal _ _ tt Hres). cbn [output result].
  by rewrite function_lines_app, Hlines, IHlines.
Qed.

(** The cross-check once the helpers are imported and have returned the
    list of subprograms. *)
Lemma tygr_body_subprograms w binary_path subprog_list :
  import_dwarf_helpers w = Returns tt →
  helper_get_dwarf_info w binary_path = Returns tt →
  dwarf_info_to_context w = Returns tt →
  dwarf_info_to_subprograms w = Returns subprog_list →
  tygr_body w binary_path
  = (emit (PTygrFound (length subprog_list));;
     for_ (report_subprogram w) subprog_list).
Proof.
  intros Himport Hinfo Hctx Hsubprogs. unfold tygr_body.
  rewrite Himport, Hinfo, Hctx, Hsubprogs. simpl call.
  by rewrite !mret_bind.
Qed.

(** X13: a failure to extract the variables of one subprogram does not
    stop the cross-check: when the helpers return the subprograms and
    each has a PC range, the body of the phase ends normally and prints one
    "Function:" line per subprogram, in order, whatever
    [dwarf_subprogram_to_vars] returns or raises for each of them. *)
Theorem vars_failure_isolated w binary_path subprog_list :
  import_dwarf_helpers w = Returns tt →
  helper_get_dwarf_info w binary_path = Returns tt →
  dwarf_info_to_context w = Returns tt →
  dwarf_info_to_subprograms w = Returns subprog_list →
  Forall has_pc_range subprog_list →
  result (tygr_body w binary_path) = Normal tt
  ∧ function_lines (output (tygr_body w binary_path))
    = func_name <$> subprog_list
  ∧ tygr_phase w binary_path
    = Run (PTygrHeader :: output (tygr_body w binary_path)) (Normal tt).
Proof.
  intros Himport Hinfo Hctx Hsubprogs Hall.
  rewrite (tygr_body_subprograms _ _ _ Himport Hinfo Hctx Hsubprogs).
  destruct (report_subprograms_with_pc w subprog_list Hall) as [Hres Hlines].
  rewrite emit_bind. cbn [output result].
  split; [done|]. split; [done|].
  pose proof (tygr_phase_guarded w binary_path) as Hguard.
  unfold guarded in Hguard.
  rewrite (tygr_body_subprograms _ _ _ Himport Hinfo Hctx Hsubprogs) in Hguard.
  rewrite emit_bind in Hguard. cbn [output result] in Hguard.
  by rewrite Hres in Hguard.
Qed.

(** The second sample: the variables of [helper] cannot be extracted, and
    [main] is reported after it all the same. *)
Lemma vars_failure_isolated_witness :
  function_lines (output (tygr_body Sample2.world "a.out"))
  = ["helper"; "main"].
Proof.
  refine (proj1 (proj2 (vars_failure_isolated Sample2.world "a.out"
    [Sample2.subprog_helper; Sample.subprog_main] _ _ _ _ _)));
    try reflexivity.
  repeat constructor; by eexists.
Defined.

(** X14: a subprogram whose PC range is [None] ends the cross-check: its
    "Function:" line is the last one, the subprograms after it are not
    reported, and the [TypeError] is logged by the handler of the phase,
    which then ends normally. *)
Theorem missing_pc_range_ends_cross_check w binary_path pre subprog post :
  import_dwarf_helpers w = Returns tt →
  helper_get_dwarf_info w binary_path = Returns tt →
  dwarf_info_to_context w = Returns tt →
  dwarf_info_to_subprograms w = Returns (pre ++ subprog :: post) →
  Forall has_pc_range pre →
  low_high_pc subprog = None →
  let e := "'NoneType' object is not subscriptable" in
  result (tygr_body w binary_path) = Raise (Exception e)
  ∧ function_lines (output (tygr_body w binary_path))
    = func_name <$> (pre ++ [subprog])
  ∧ tygr_phase w binary_path
    = Run (PTygrHeader :: output (tygr_body w binary_path)
           ++ [PTygrError e; PTraceback e])
        (Normal tt).
Proof.
  intros Himport Hinfo Hctx Hsubprogs Hpre Hnone e.
  pose proof (tygr_phase_guarded w binary_path) as Hguard.
  unfold guarded in Hguard. revert Hguard.
  rewrite (tygr_body_subprograms _ _ _ Himport Hinfo Hctx Hsubprogs).
  destruct (report_subprograms_with_pc w pre Hpre) as [Hres Hlines].
  unfold for_ in *. rewrite for_each_app, emit_bind.
  rewrite (bind_Normal _ _ tt Hres). cbn [for_each output result].
  rewrite (report_subprogram_without_pc _ _ Hnone).
  cbn [mbind M_bind output result].
  intros Hguard. split; [done|]. split; [|done].
  change (function_lines (PTygrFound ?n :: ?l)) with (function_lines l).
  rewrite function_lines_app, Hlines, fmap_app. done.
Qed.

(** With a subprogram without PC range between the two: [main] is not
    reported. *)
Lemma missing_pc_range_ends_cross_check_witness :
  function_lines
    (output (tygr_body
               (Sample2.world_with
                  [Sample2.subprog_helper; Sample2.subprog_extern;
                   Sample.subprog_main]) "a.out"))
  = ["helper"; "puts"].
Proof.
  refine (proj1 (proj2 (missing_pc_range_ends_cross_check
    (Sample2.world_with
       [Sample2.subprog_helper; Sample2.subprog_extern; Sample.subprog_main])
    "a.out" [Sample2.subprog_helper] Sample2.subprog_extern
    [Sample.subprog_main] _ _ _ _ _ _)));
    try reflexivity.
  repeat constructor; by eexists.
Defined.

(** ** The symbolic-execution test *)

Lemma functions_get_Some items addr fn :
  functions_get items addr = Some fn → (addr, fn) ∈ items.
Proof.
  induction items as [|[a f] items IH]; [done|]. cbn [functions_get].
  destruct (Z.eqb_spec a addr) as [->|Hne].
  - intros [= ->]. by left.
  - intros Hget. right. by apply IH.
Qed.

Lemma functions_get_None items addr :
  functions_get items addr = None ↔ addr ∉ items.*1.
Proof.
  induction items as [|[a f] items IH]; cbn [functions_get fmap list_fmap fst].
  - split; [intros _ ?%elem_of_nil; done|done].
  - rewrite not_elem_of_cons. destruct (Z.eqb_spec a addr) as [->|Hne].
    + split; [done|]. by intros [? _].
    + rewrite IH. split; [by split|by intros [_ ?]].
Qed.

(** X15: the script reports [main] as found exactly when [main_addr] is
    the address of a function of the CFG, with the name and size of the
    first item at that address; the list of available functions is
    printed exactly when it is not. *)
Theorem main_found_or_listed cfg :
  (∀ func, functions_get (functions cfg) main_addr = Some func →
     report_main cfg
     = Run [PMainFound main_addr; PFunctionName (name func);
            PFunctionSize (size func)] (Normal tt)
     ∧ (main_addr, func) ∈ functions cfg)
  ∧ (PMainFound main_addr ∈ output (report_main cfg) ↔
     main_addr ∈ (functions cfg).*1)
  ∧ (PAvailableFunctions ∈ output (report_main cfg) ↔
     main_addr ∉ (functions cfg).*1).
Proof.
  split.
  { intros func Hget. split; [|by apply functions_get_Some].
    unfold report_main. by rewrite Hget. }
  destruct (functions_get (functions cfg) main_addr) as [func|] eqn:Hget.
  - assert (main_addr ∈ (functions cfg).*1) as Hin.
    { apply functions_get_Some in Hget.
      apply list_elem_of_fmap. by exists (main_addr, func). }
    unfold report_main. rewrite Hget. cbn [output emit mbind M_bind result app].
    split; split; try done.
    + intros _. by left.
    + other_lines.
  - pose proof Hget as Hnotin%functions_get_None.
    rewrite (report_main_absent cfg Hget). cbn [output app].
    split; split; try done.
    + intros Hin. exfalso.
      apply elem_of_cons in Hin as [?|Hin]; [done|].
      apply elem_of_cons in Hin as [?|Hin]; [done|].
      apply list_elem_of_In, in_map_iff in Hin as (item & ? & _). done.
    + intros _. right. by left.
Qed.

(** The CFG of the second sample has [main] at 0x10908. *)
Lemma main_found_or_listed_witness :
  report_main Sample2.cfg_with_main
  = Run [PMainFound main_addr; PFunctionName "main"; PFunctionSize 64]
      (Normal tt).
Proof.
  refine (proj1 (proj1 (main_found_or_listed Sample2.cfg_with_main)
                   Sample2.fn_main _)).
  reflexivity.
Defined.

Lemma result_emit_bind {B} (l : line) (k : unit → M B) :
  result (emit l ≫= k) = result (k tt).
Proof. reflexivity. Qed.

Lemma result_bind_Normal {A B} (m : M A) (k : A → M B) a :
  result m = Normal a → result (m ≫= k) = result (k a).
Proof. intros H. by rewrite (bind_Normal _ _ _ H). Qed.

(** X16: once angr, the project, the CFG and the strategy are there, a
    failure of [sim_exec_function] is logged by the inner handler alone:
    the body of the phase ends normally, so the handler of the phase does
    not run, and the last lines are the result and its number of state
    tuples, or the error of [sim_exec_function] and its trace. *)
Theorem sim_exec_failure_is_local w binary_path version proj cfg strategy :
  import_angr w = Returns version →
  angr_Project w binary_path = Returns proj →
  CFGFast proj = Returns cfg →
  import_sim_exec w = Returns tt →
  LessSimpleDominatorStrategy w proj = Returns strategy →
  symexec_phase w binary_path
  = Run (PSymHeader :: output (symexec_body w binary_path)) (Normal tt)
  ∧ ∃ before_exec,
      output (symexec_body w binary_path)
      = before_exec
        ++ [PStrategyCreated;
            PStrategyCfgFunctions (length (functions (strategy_cfg strategy)));
            PAttempting]
        ++ match sim_exec_function strategy main_addr with
           | Returns res =>
               [PResult (result_repr res); PNumTuples (length (tups res))]
           | Raises e => [PSimExecError e; PTraceback e]
           end.
Proof.
  intros Himport Hproj Hcfg Himport2 Hstrategy.
  assert (result (report_main cfg) = Normal tt) as Hreport.
  { unfold report_main.
    destruct (functions_get _ _); [done|].
    by rewrite !result_emit_bind, for_print_function_entry. }
  assert (try_sim_exec strategy
          = Run match sim_exec_function strategy main_addr with
                | Returns res =>
                    [PResult (result_repr res); PNumTuples (length (tups res))]
                | Raises e => [PSimExecError e; PTraceback e]
                end (Normal tt)) as Hexec.
  { unfold try_sim_exec.
    by destruct (sim_exec_function strategy main_addr). }
  assert (result (symexec_body w binary_path) = Normal tt) as Hres.
  { unfold symexec_body. rewrite Himport. simpl call. rewrite mret_bind.
    rewrite result_emit_bind, Hproj. simpl call. rewrite mret_bind.
    rewrite !result_emit_bind, Hcfg. simpl call. rewrite mret_bind.
    rewrite !result_emit_bind.
    rewrite (result_bind_Normal (report_main cfg) _ tt Hreport).
    rewrite result_emit_bind, Himport2. simpl call. rewrite mret_bind.
    rewrite Hstrategy. simpl call. rewrite mret_bind.
    rewrite !result_emit_bind. by rewrite Hexec. }
  pose proof (symexec_phase_guarded w binary_path) as Hguard.
  unfold guarded in Hguard. rewrite Hres in Hguard.
  split; [done|].
  unfold symexec_body. rewrite Himport. simpl call. rewrite mret_bind.
  rewrite output_emit_bind, Hproj. simpl call. rewrite mret_bind.
  rewrite !output_emit_bind, Hcfg. simpl call. rewrite mret_bind.
  rewrite !output_emit_bind.
  rewrite (output_bind_Normal (report_main cfg) _ tt Hreport).
  rewrite output_emit_bind, Himport2. simpl call. rewrite mret_bind.
  rewrite Hstrategy. simpl call. rewrite mret_bind.
  rewrite !output_emit_bind, Hexec. cbn [output].
  exists ([PAngrVersion version; PProjectLoaded (proj_repr proj);
           PArchitecture (arch proj); PGeneratingCfg; PCfgGenerated;
           PCfgFunctions (length (functions cfg));
           PCfgModelType (model_type cfg)]
          ++ output (report_main cfg) ++ [PStrategyHeader]).
  cbn [app]. by rewrite <- !app_assoc.
Qed.

(** The sample, where [sim_exec_function] raises. *)
Lemma sim_exec_failure_is_local_witness :
  symexec_phase Sample.world "a.out"
  = Run (PSymHeader :: output (symexec_body Sample.world "a.out")) (Normal tt).
Proof.
  refine (proj1 (sim_exec_failure_is_local Sample.world "a.out" "9.2.6"
    Sample.project Sample.cfg_without_main Sample.strategy _ _ _ _ _));
    reflexivity.
Defined.

(** ** Subtrees in the walk *)

(** X17: the walk of every DIE yielded by [iter_die] is a contiguous part
    of the walk of the root: a subtree is yielded in one piece, not
    interleaved with the rest. *)
Theorem subtree_walk_contiguous root die :
  die ∈ iter_die root →
  ∃ pre post, iter_die root = pre ++ iter_die die ++ post.
Proof.
  revert die. induction root as [t attrs cs IH] using DIE_ind. intros die.
  cbn [iter_die]. rewrite elem_of_cons.
  intros [->|Hin].
  - exists [], []. cbn [iter_die app]. by rewrite app_nil_r.
  - apply list_elem_of_In, in_flat_map in Hin as (child & Hchild & Hdie).
    apply list_elem_of_In in Hchild, Hdie.
    rewrite Forall_forall in IH.
    destruct (IH child Hchild die Hdie) as (pre & post & Hwalk).
    apply list_elem_of_split in Hchild as (cs1 & cs2 & ->).
    rewrite flat_map_app. cbn [flat_map]. rewrite Hwalk.
    exists (mkDIE t attrs (cs1 ++ child :: cs2)
              :: flat_map iter_die cs1 ++ pre),
           (post ++ flat_map iter_die cs2).
    cbn [app]. by rewrite <- !app_assoc.
Qed.

(** In the first compilation unit of the sample, the walk of [main] (with
    its variable, its block and the inlined subprogram) is one piece. *)
Lemma subtree_walk_contiguous_witness :
  ∃ pre post,
    iter_die (get_top_DIE Sample.cu0) = pre ++ iter_die Sample.die_main ++ post.
Proof.
  refine (subtree_walk_contiguous (get_top_DIE Sample.cu0) Sample.die_main _).
  cbn [iter_die get_top_DIE Sample.cu0 flat_map]. right. by left.
Defined.

(** ** Method 1 never ends the walk *)

(** X18: a subprogram DIE that has [DW_AT_ranges] and a name that decodes
    never ends the walk, whatever the resolution of its range list does
    (return a list, empty or not, or raise): its processing completes, it
    always prints its header line first, and it is counted exactly when the
    range list was resolved and is not empty. *)
Theorem ranges_never_end_walk w dwarf_info die func_name ranges_attr :
  tag die = "DW_TAG_subprogram" →
  get_func_name die = mret func_name →
  attributes die !! "DW_AT_ranges" = Some ranges_attr →
  ∃ rest d,
    die_run w dwarf_info die = Run (PSubprogram func_name :: rest) (Normal d)
    ∧ subprog_count d = 1
    ∧ (subprog_with_pc d = 1 ↔
       ∃ first_range others,
         get_range_list_at_offset dwarf_info (value ranges_attr)
         = Returns (first_range :: others))
    ∧ (subprog_with_pc d = 0 ∨ subprog_with_pc d = 1).
Proof.
  intros Htag Hname Hranges. unfold die_run.
  rewrite (process_die_ranges _ _ _ _ _ _ Htag Hname Hranges).
  destruct (get_range_list_at_offset dwarf_info (value ranges_attr))
    as [[|first_range others]|e] eqn:Hres.
  - rewrite (ranges_branch_resolved _ _ _ _ _ Hres).
    do 2 eexists. split; [reflexivity|]. split; [done|].
    split; [|by left]. split; [done|]. by intros (? & ? & ?).
  - rewrite (ranges_branch_resolved _ _ _ _ _ Hres).
    pose proof (describe_first_range_result first_range) as Hnormal.
    rewrite !emit_bind. rewrite (bind_Normal _ _ tt Hnormal).
    do 2 eexists. split; [reflexivity|]. split; [done|].
    split; [|by right]. split; [by eauto|done].
  - rewrite (ranges_branch_failed _ _ _ _ _ Hres).
    do 2 eexists. split; [reflexivity|]. split; [done|].
    split; [|by left]. split; [done|]. by intros (? & ? & ?).
Qed.

(** A subprogram of the sample whose range list cannot be resolved. *)
Lemma ranges_never_end_walk_witness :
  ∃ rest d,
    die_run Sample.world Sample.dwarf_info
      (Sample.leaf "DW_TAG_subprogram"
         [("DW_AT_ranges", Sample.attr "DW_FORM_sec_offset" (VInt 128))])
    = Run (PSubprogram None :: rest) (Normal d)
    ∧ subprog_count d = 1
    ∧ (subprog_with_pc d = 1 ↔
       ∃ first_range others,
         get_range_list_at_offset Sample.dwarf_info
           (value (Sample.attr "DW_FORM_sec_offset" (VInt 128)))
         = Returns (first_range :: others))
    ∧ (subprog_with_pc d = 0 ∨ subprog_with_pc d = 1).
Proof.
  refine (ranges_never_end_walk Sample.world Sample.dwarf_info
    (Sample.leaf "DW_TAG_subprogram"
       [("DW_AT_ranges", Sample.attr "DW_FORM_sec_offset" (VInt 128))])
    None (Sample.attr "DW_FORM_sec_offset" (VInt 128)) _ _ _);
    vm_compute; reflexivity.
Defined.
